(** * mypy/fastparse.py: the typed_ast to mypy tree converter

A shallow embedding of [mypy/fastparse.py] and the properties of it that
the specification states.

- Python exceptions are the [Raise] results of an error monad; the
  converter state ([self.in_class], [self.imports]) is threaded
  explicitly through the statement level.
- [typed_ast] (the external parser) and the two builtins whose text
  rendering the module relies on are collected in a [host] record.
- A field that this module never assigns, and that therefore keeps what
  the constructor of [mypy.nodes] / [mypy.types] gave it, is [None]. *)

From stdpp Require Import base option list strings gmap.
From Stdlib Require Import ZArith Lia.

Set Warnings "-register-all".

Open Scope Z_scope.

(** ** Exceptions and the error monad *)

Inductive exn :=
  | RuntimeError (msg : string)
  | AssertionError (msg : string)
  | SyntaxError (lineno : Z) (msg : string)
  | IndexError
  | AttributeError
  | RecursionError
  | OtherError (cls : string).

Inductive result (A : Type) :=
  | OK (a : A)
  | Raise (e : exn).
Arguments OK {A} a.
Arguments Raise {A} e.

Definition bind {A B} (m : result A) (k : A -> result B) : result B :=
  match m with
  | OK a => k a
  | Raise e => Raise e
  end.

Notation "'let*' x ':=' m 'in' k" := (bind m (fun x => k))
  (at level 10, x pattern, m at level 100, k at level 200).

(** [[f(e) for e in l]], left to right, stopping at the first exception. *)
Definition mapM {A B} (f : A -> result B) : list A -> result (list B) :=
  fix go l :=
    match l with
    | [] => OK []
    | x :: t => let* y := f x in let* ys := go t in OK (y :: ys)
    end.

(** [f(o) if o is not None else None]. *)
Definition optM {A B} (f : A -> result B) (o : option A) : result (option B) :=
  match o with
  | None => OK None
  | Some a => let* b := f a in OK (Some b)
  end.

(** ** Python sequence helpers *)

(** The position a slice bound [k] denotes in a sequence of length [len]:
    negative bounds count from the end, and both ends clamp. *)
Definition slice_bound (len : nat) (k : Z) : nat :=
  if k <? 0 then Z.to_nat (Z.max 0 (Z.of_nat len + k))
  else Z.to_nat (Z.min k (Z.of_nat len)).

(** [l[:k]] and [l[k:]]. *)
Definition slice_to {A} (l : list A) (k : Z) : list A :=
  take (slice_bound (length l) k) l.
Definition slice_from {A} (l : list A) (k : Z) : list A :=
  drop (slice_bound (length l) k) l.

(** [s[lo:hi]] on a string. *)
Definition str_slice (s : string) (lo hi : Z) : string :=
  let a := slice_bound (String.length s) lo in
  let b := slice_bound (String.length s) hi in
  String.substring a (b - a)%nat s.

(** [zip(a, b)]: stops at the shorter sequence. *)
Fixpoint pyzip {A B} (a : list A) (b : list B) : list (A * B) :=
  match a, b with
  | x :: a', y :: b' => (x, y) :: pyzip a' b'
  | _, _ => []
  end.

(** [find] of the module: the first item satisfying [f], or [None]. *)
Fixpoint find {T} (f : T -> bool) (seq : list T) : option T :=
  match seq with
  | [] => None
  | item :: rest => if f item then Some item else find f rest
  end.

(** ** The source tree: [typed_ast] (Python 3.5 abstract grammar)

[col_offset] and the expression contexts ([Load]/[Store]/[Del]) are
never read by the converter and are left out. *)

Module ast.

Inductive boolop := And | Or.
Inductive operator :=
  | Add | Sub | Mult | MatMult | Div | Mod | Pow
  | LShift | RShift | BitOr | BitXor | BitAnd | FloorDiv.
Inductive unaryop := Invert | Not | UAdd | USub.
Inductive cmpop := Eq | NotEq | Lt | LtE | Gt | GtE | Is | IsNot | In | NotIn.

(** The value of a [NameConstant]. *)
Inductive singleton := PyNone | PyTrue | PyFalse.

(** The value of a [Num]: the three numeric classes the module tests for
    (float and complex by their text), and anything else by class name. *)
Inductive object :=
  | PyInt (z : Z)
  | PyFloat (repr : string)
  | PyComplex (repr : string)
  | PyObject (cls : string).

(** [arg = (identifier arg, expr? annotation)] *)
Inductive arg_ (E : Type) := Arg (arg : string) (annotation : option E) (lineno : Z).
Arguments Arg {E} arg annotation lineno.

(** [arguments = (arg* args, arg? vararg, arg* kwonlyargs,
                  expr* kw_defaults, arg? kwarg, expr* defaults)];
    an entry of [kw_defaults] is [None] for a parameter without default. *)
Inductive arguments_ (E : Type) :=
  Arguments_ (args : list (arg_ E)) (vararg : option (arg_ E))
             (kwonlyargs : list (arg_ E)) (kw_defaults : list (option E))
             (kwarg : option (arg_ E)) (defaults : list E).
Arguments Arguments_ {E} args vararg kwonlyargs kw_defaults kwarg defaults.

(** [comprehension = (expr target, expr iter, expr* ifs)] *)
Inductive comprehension_ (E : Type) :=
  Comprehension (target iter : E) (ifs : list E).
Arguments Comprehension {E} target iter ifs.

(** [keyword = (identifier? arg, expr value)] *)
Inductive keyword_ (E : Type) := Keyword (arg : option string) (value : E).
Arguments Keyword {E} arg value.

Inductive expr := At (lineno : Z) (d : expr_desc)
with expr_desc :=
  | BoolOp (op : boolop) (values : list expr)
  | BinOp (left : expr) (op : operator) (right : expr)
  | UnaryOp (op : unaryop) (operand : expr)
  | Lambda (args : arguments_ expr) (body : expr)
  | IfExp (test body orelse : expr)
  | Dict (keys : list (option expr)) (values : list expr)
  | Set_ (elts : list expr)
  | ListComp (elt : expr) (generators : list (comprehension_ expr))
  | SetComp (elt : expr) (generators : list (comprehension_ expr))
  | DictComp (key value : expr) (generators : list (comprehension_ expr))
  | GeneratorExp (elt : expr) (generators : list (comprehension_ expr))
  | Await (value : expr)
  | Yield (value : option expr)
  | YieldFrom (value : expr)
  | Compare (left : expr) (ops : list cmpop) (comparators : list expr)
  | Call (func : expr) (args : list expr) (keywords : list (keyword_ expr))
  | Num (n : object)
  | Str (s : string)
  | Bytes (s : list Byte.byte)
  | NameConstant (value : singleton)
  | Ellipsis
  | Attribute (value : expr) (attr : string)
  | Subscript (value : expr) (slice : slice)
  | Starred (value : expr)
  | Name (id : string)
  | List (elts : list expr)
  | Tuple (elts : list expr)
with slice :=
  | Slice (lower upper step : option expr)
  | ExtSlice (dims : list slice)
  | Index (value : expr).

Definition arg := arg_ expr.
Definition arguments := arguments_ expr.
Definition comprehension := comprehension_ expr.
Definition keyword := keyword_ expr.

Definition lineno (e : expr) : Z := match e with At l _ => l end.

(** [alias = (identifier name, identifier? asname)] *)
Inductive alias := Alias (name : string) (asname : option string).

(** [withitem = (expr context_expr, expr? optional_vars)] *)
Inductive withitem := WithItem (context_expr : expr) (optional_vars : option expr).

(** [excepthandler = ExceptHandler(expr? type, identifier? name, stmt* body)] *)
Inductive excepthandler_ (S : Type) :=
  ExceptHandler (type : option expr) (name : option string) (body : list S) (lineno : Z).
Arguments ExceptHandler {S} type name body lineno.

Inductive stmt := SAt (lineno : Z) (d : stmt_desc)
with stmt_desc :=
  | FunctionDef (name : string) (args : arguments) (body : list stmt)
                (decorator_list : list expr) (returns : option expr)
                (type_comment : option string)
  | AsyncFunctionDef (name : string) (args : arguments) (body : list stmt)
                     (decorator_list : list expr) (returns : option expr)
                     (type_comment : option string)
  | ClassDef (name : string) (bases : list expr) (keywords : list keyword)
             (body : list stmt) (decorator_list : list expr)
  | Return (value : option expr)
  | Delete (targets : list expr)
  | Assign (targets : list expr) (value : expr) (type_comment : option string)
  | AugAssign (target : expr) (op : operator) (value : expr)
  | For (target iter : expr) (body orelse : list stmt) (type_comment : option string)
  | AsyncFor (target iter : expr) (body orelse : list stmt)
  | While (test : expr) (body orelse : list stmt)
  | If (test : expr) (body orelse : list stmt)
  | With (items : list withitem) (body : list stmt) (type_comment : option string)
  | AsyncWith (items : list withitem) (body : list stmt)
  | Raise_ (exc cause : option expr)
  | Try (body : list stmt) (handlers : list (excepthandler_ stmt))
        (orelse finalbody : list stmt)
  | Assert (test : expr) (msg : option expr)
  | Import (names : list alias)
  | ImportFrom (module : option string) (names : list alias) (level : option Z)
  | Global (names : list string)
  | Nonlocal (names : list string)
  | Expr (value : expr)
  | Pass
  | Break
  | Continue.

Definition excepthandler := excepthandler_ stmt.

(** [TypeIgnore(int lineno)] and [Module(stmt* body, type_ignore* type_ignores)] *)
Inductive type_ignore := TypeIgnore (lineno : Z).
Inductive module_ := Module_ (body : list stmt) (type_ignores : list type_ignore).

(** The result of parsing in ['func_type'] mode:
    [FunctionType(expr* argtypes, expr returns)]. *)
Inductive function_type := FunctionType (argtypes : list expr) (returns : expr).

End ast.

(** ** The target tree: [mypy.types] and [mypy.nodes]

Both modules are imported by the converter; what is declared here is
their constructors as the converter calls them. *)

(** Passing conventions of parameters and call arguments. *)
Inductive ArgKind := ARG_POS | ARG_OPT | ARG_STAR | ARG_NAMED | ARG_STAR2.

(** Type objects.  [line] is the keyword argument [line=...] of the
    constructor call, [None] when the call does not pass it.  The
    back-reference [CallableType.definition], which the converter points at
    the function definition that owns the signature, is not represented. *)
Inductive Type_ :=
  | AnyType
  | UnboundType (name : string) (args : list Type_) (line : option Z)
  | TupleType (items : list Type_) (implicit : bool) (line : option Z)
  | TypeList (items : list Type_) (line : option Z)
  | EllipsisType (line : option Z)
  | CallableType (arg_types : list Type_) (arg_kinds : list ArgKind)
                 (arg_names : list string) (ret_type : Type_).

(** A node object: what the constructor built, and the line that [set_line]
    stamped on it ([None] while [set_line] has not been called on it). *)
Record lined (A : Type) := L { line : option Z; it : A }.
Arguments L {A} line it.
Arguments line {A} l.
Arguments it {A} l.

(** [node.set_line(l)] *)
Definition set_line {A} (node : lined A) (l : Z) : lined A :=
  L (Some l) (it node).

(** [Var(name)], with the flag [is_ready] when the converter assigns it. *)
Inductive Var_ := Var (name : string) (is_ready : option bool).

Inductive Kind :=
  (* expressions *)
  | NameExpr (name : string)
  | IntExpr (value : Z)
  | FloatExpr (value : string)
  | ComplexExpr (value : string)
  | StrExpr (value : string)
  | BytesExpr (value : string)
  | EllipsisExpr
  | OpExpr (op : string) (left right : lined Kind)
  | UnaryExpr (op : string) (expr : lined Kind)
  | ComparisonExpr (operators : list string) (operands : list (lined Kind))
  | CallExpr (callee : lined Kind) (args : list (lined Kind))
             (arg_kinds : list ArgKind) (arg_names : list (option string))
  | MemberExpr (expr : lined Kind) (name : string)
  | SuperExpr (name : string)
  | IndexExpr (base index : lined Kind)
  | SliceExpr (begin_index end_index stride : option (lined Kind))
  | TupleExpr (items : list (lined Kind))
  | ListExpr (items : list (lined Kind))
  | SetExpr (items : list (lined Kind))
  | DictExpr (items : list (option (lined Kind) * lined Kind))
  | ConditionalExpr (cond if_expr else_expr : lined Kind)
  | StarExpr (expr : lined Kind)
  | YieldExpr (expr : option (lined Kind))
  | YieldFromExpr (expr : lined Kind)
  | FuncExpr (arguments : list Argument_) (body : option (lined (list (lined Kind))))
  | GeneratorExpr (left_expr : lined Kind) (indices sequences : list (lined Kind))
                  (condlists : list (list (lined Kind)))
  | ListComprehension (generator : lined Kind)
  | SetComprehension (generator : lined Kind)
  | DictionaryComprehension (key value : lined Kind)
                            (indices sequences : list (lined Kind))
                            (condlists : list (list (lined Kind)))
  (* statements *)
  | Import (ids : list (string * option string))
  | ImportAll (id : option string) (relative : option Z)
  | ImportFrom (id : string) (relative : option Z)
               (names : list (string * option string))
  | FuncDefStmt (func : FuncDef_)
  | OverloadedFuncDef (items : list (lined Kind))
  | ClassDef (name : string) (defs : lined (list (lined Kind)))
             (base_type_exprs : list (lined Kind)) (metaclass : option string)
             (decorators : list (lined Kind))
  | Decorator (func : lined FuncDef_) (decorators : list (lined Kind))
              (var : lined Var_)
  | OperatorAssignmentStmt (op : string) (lvalue rvalue : lined Kind)
  | ExpressionStmt (expr : lined Kind)
  | AssignmentStmt (lvalues : list (lined Kind)) (rvalue : lined Kind)
                   (type : option Type_)
  | ReturnStmt (expr : option (lined Kind))
  | RaiseStmt (expr from_expr : option (lined Kind))
  | AssertStmt (expr : lined Kind)
  | DelStmt (expr : lined Kind)
  | BreakStmt
  | ContinueStmt
  | PassStmt
  | GlobalDecl (names : list string)
  | NonlocalDecl (names : list string)
  | WhileStmt (expr : lined Kind)
              (body else_body : option (lined (list (lined Kind))))
  | ForStmt (index expr : lined Kind)
            (body else_body : option (lined (list (lined Kind))))
  | IfStmt (expr : list (lined Kind))
           (body : list (option (lined (list (lined Kind)))))
           (else_body : option (lined (list (lined Kind))))
  | TryStmt (body : option (lined (list (lined Kind))))
            (vars : list (option (lined Kind)))
            (types : list (option (lined Kind)))
            (handlers : list (option (lined (list (lined Kind)))))
            (else_body finally_body : option (lined (list (lined Kind))))
  | WithStmt (expr : list (lined Kind)) (target : list (option (lined Kind)))
             (body : option (lined (list (lined Kind))))
(** [Argument(variable, type_annotation, initializer, kind)] *)
with Argument_ :=
  | Argument (variable : lined Var_) (type_annotation : option Type_)
             (initializer : option (lined Kind)) (kind : ArgKind)
(** [FuncDef(name, arguments, body, typ)], with the flag [is_decorated] when
    the converter assigns it. *)
with FuncDef_ :=
  | FuncDef (name : string) (arguments : list Argument_)
            (body : option (lined (list (lined Kind)))) (type : option Type_)
            (is_decorated : option bool).

(** A node of the target tree, and a [Block(body)]. *)
Definition Node := lined Kind.
Definition Block_ := lined (list Node).

(** [Block(body)], before any [set_line]. *)
Definition Block (body : list Node) : Block_ := L None body.

(** A freshly constructed node. *)
Definition new {A} (k : A) : lined A := L None k.

(** [MypyFile(defs, imports, is_bom, ignored_lines, weak_opts)] with the two
    attributes [path] and [is_stub] that [parse] assigns afterwards. *)
Record MypyFile_ := MypyFile {
  defs : list Node;
  imports : list Node;
  is_bom : bool;
  ignored_lines : gset Z;
  weak_opts : gset string;
  path : option (option string);
  is_stub : option bool
}.

(** [MypyFile(...)] as the module builds it, [path] and [is_stub] not yet
    assigned. *)
Definition new_MypyFile (defs imports : list Node) (is_bom : bool)
    (ignored_lines : gset Z) (weak_opts : gset string) : MypyFile_ :=
  MypyFile defs imports is_bom ignored_lines weak_opts None None.

(** [arg.kind], [arg.variable.name()], [arg.type_annotation] *)
Definition kind (a : Argument_) : ArgKind :=
  match a with Argument _ _ _ k => k end.
Definition variable (a : Argument_) : lined Var_ :=
  match a with Argument v _ _ _ => v end.
Definition type_annotation (a : Argument_) : option Type_ :=
  match a with Argument _ t _ _ => t end.
Definition initializer (a : Argument_) : option Node :=
  match a with Argument _ _ i _ => i end.
Definition Var_name (v : lined Var_) : string :=
  match it v with Var n _ => n end.

(** [FuncDef.name()] and [Decorator.name()], which is its function's. *)
Definition FuncDef_name (f : FuncDef_) : string :=
  match f with FuncDef n _ _ _ _ => n end.
Definition FuncDef_type (f : FuncDef_) : option Type_ :=
  match f with FuncDef _ _ _ t _ => t end.

(** ** The host: [typed_ast.parse] and two builtins

    [typed_ast.parse(source, filename, mode)] in its three modes, each
    returning a tree or raising; [str(b)] of a bytes object; [s.strip()]. *)
Record host := Host {
  parse_exec : string -> option string -> result ast.module_;
  parse_eval : string -> result ast.expr;
  parse_func_type : string -> result ast.function_type;
  bytes_str : list Byte.byte -> string;
  str_strip : string -> string
}.

(** ** Text of Python values *)

(** [str(n.value)] of a singleton constant. *)
Definition str_singleton (v : ast.singleton) : string :=
  match v with
  | ast.PyNone => "None"
  | ast.PyTrue => "True"
  | ast.PyFalse => "False"
  end.

(** The class name of a source node, which stands for [str(type(node))] in
    the messages of the internal failures. *)
Definition expr_class (d : ast.expr_desc) : string :=
  match d with
  | ast.BoolOp _ _ => "BoolOp" | ast.BinOp _ _ _ => "BinOp"
  | ast.UnaryOp _ _ => "UnaryOp" | ast.Lambda _ _ => "Lambda"
  | ast.IfExp _ _ _ => "IfExp" | ast.Dict _ _ => "Dict"
  | ast.Set_ _ => "Set" | ast.ListComp _ _ => "ListComp"
  | ast.SetComp _ _ => "SetComp" | ast.DictComp _ _ _ => "DictComp"
  | ast.GeneratorExp _ _ => "GeneratorExp" | ast.Await _ => "Await"
  | ast.Yield _ => "Yield" | ast.YieldFrom _ => "YieldFrom"
  | ast.Compare _ _ _ => "Compare" | ast.Call _ _ _ => "Call"
  | ast.Num _ => "Num" | ast.Str _ => "Str" | ast.Bytes _ => "Bytes"
  | ast.NameConstant _ => "NameConstant" | ast.Ellipsis => "Ellipsis"
  | ast.Attribute _ _ => "Attribute" | ast.Subscript _ _ => "Subscript"
  | ast.Starred _ => "Starred" | ast.Name _ => "Name"
  | ast.List _ => "List" | ast.Tuple _ => "Tuple"
  end.

(** ** [class TypeConverter] *)

Module TypeConverter.

Section methods.
(** [self.line] *)
Variable line : Z.
(** The module level [parse_type_comment] and [self.visit]. *)
Variable parse_type_comment : string -> Z -> result Type_.
Variable visit : ast.expr -> result Type_.
Variable h : host.

Definition generic_visit (cls : string) : result Type_ :=
  Raise (RuntimeError ("Type node not implemented: " +:+ cls)).

Definition visit_list (l : list ast.expr) : result (list Type_) :=
  mapM visit l.

Definition visit_Name (id : string) : result Type_ :=
  OK (UnboundType id [] (Some line)).

Definition visit_NameConstant (value : ast.singleton) : result Type_ :=
  OK (UnboundType (str_singleton value) [] None).

Definition visit_Str (s : string) : result Type_ :=
  parse_type_comment (str_strip h s) line.

Definition visit_Subscript (value : ast.expr) (slice : ast.slice) : result Type_ :=
  match slice with
  | ast.Index slice_value =>
      let* value := visit value in
      match value with
      | UnboundType name [] _ =>
          let* params :=
            match slice_value with
            | ast.At _ (ast.Tuple elts) => visit_list elts
            | _ => let* p := visit slice_value in OK [p]
            end in
          OK (UnboundType name params (Some line))
      | _ => Raise (AssertionError "")
      end
  | _ => Raise (AssertionError "")
  end.

Definition visit_Tuple (elts : list ast.expr) : result Type_ :=
  let* items := visit_list elts in
  OK (TupleType items true (Some line)).

Definition visit_Attribute (value : ast.expr) (attr : string) : result Type_ :=
  let* before_dot := visit value in
  match before_dot with
  | UnboundType name [] _ => OK (UnboundType (name +:+ "." +:+ attr) [] (Some line))
  | _ => Raise (AssertionError "")
  end.

Definition visit_Ellipsis : result Type_ :=
  OK (EllipsisType (Some line)).

Definition visit_List (elts : list ast.expr) : result Type_ :=
  let* items := visit_list elts in
  OK (TypeList items (Some line)).
End methods.

(** [self.visit(node)] on an expression: dispatch on the class of the
    node, [generic_visit] where the class has no method. *)
Definition visit_with (h : host) (parse_type_comment : string -> Z -> result Type_)
    (line : Z) : ast.expr -> result Type_ :=
  fix visit (n : ast.expr) : result Type_ :=
    match n with
    | ast.At _ d =>
        match d with
        | ast.Name id => visit_Name line id
        | ast.NameConstant value => visit_NameConstant value
        | ast.Str s => visit_Str line parse_type_comment h s
        | ast.Subscript value slice => visit_Subscript line visit value slice
        | ast.Tuple elts => visit_Tuple line visit elts
        | ast.Attribute value attr => visit_Attribute line visit value attr
        | ast.Ellipsis => visit_Ellipsis line
        | ast.List elts => visit_List line visit elts
        | _ => generic_visit (expr_class d)
        end
    end.

End TypeConverter.

(** [parse_type_comment(type_comment, line)].  A quoted type re-enters the
    converter through [visit_Str]; [depth] bounds that nesting as the
    interpreter's recursion limit does, with [RecursionError] beyond it. *)
Fixpoint parse_type_comment (h : host) (depth : nat) (type_comment : string) (line : Z)
    : result Type_ :=
  match depth with
  | O => Raise RecursionError
  | S depth' =>
      let* typ := parse_eval h type_comment in
      TypeConverter.visit_with h (parse_type_comment h depth') line typ
  end.

(** [TypeConverter(line=line).visit(node)] for an expression, for a list of
    expressions ([visit_list]) and for an optional one ([visit_NoneType]). *)
Definition TypeConverter_visit (h : host) (depth : nat) (line : Z)
    : ast.expr -> result Type_ :=
  TypeConverter.visit_with h (parse_type_comment h depth) line.

Definition TypeConverter_visit_list (h : host) (depth : nat) (line : Z)
    (l : list ast.expr) : result (list Type_) :=
  mapM (TypeConverter_visit h depth line) l.

Definition TypeConverter_visit_opt (h : host) (depth : nat) (line : Z)
    (o : option ast.expr) : result (option Type_) :=
  optM (TypeConverter_visit h depth line) o.

(** [[f(a, d) for a, d in zip(l1, l2)]], left to right. *)
Definition zipM {A B C} (f : A -> B -> result C) : list A -> list B -> result (list C) :=
  fix go l1 l2 {struct l2} :=
    match l2, l1 with
    | d :: l2', a :: l1' => let* y := f a d in let* ys := go l1' l2' in OK (y :: ys)
    | _, _ => OK []
    end.

(** The decorator [with_line]: run the method, then [node.set_line(ast.lineno)]. *)
Definition with_line {A} (f : result (lined A)) (lineno : Z) : result (lined A) :=
  let* node := f in OK (set_line node lineno).

(** ** [class ASTConverter]: operators, expressions, slices *)

Module ASTConverter.

(** [op_map.get(type(op))] *)
Definition op_map (op : ast.operator) : option string :=
  match op with
  | ast.Add => Some "+" | ast.Sub => Some "-" | ast.Mult => Some "*"
  | ast.MatMult => Some "@" | ast.Div => Some "/" | ast.Mod => Some "%"
  | ast.Pow => Some "**" | ast.LShift => Some "<<" | ast.RShift => Some ">>"
  | ast.BitOr => Some "|" | ast.BitXor => Some "^" | ast.BitAnd => Some "&"
  | ast.FloorDiv => Some "//"
  end.

Definition operator_class (op : ast.operator) : string :=
  match op with
  | ast.Add => "Add" | ast.Sub => "Sub" | ast.Mult => "Mult"
  | ast.MatMult => "MatMult" | ast.Div => "Div" | ast.Mod => "Mod"
  | ast.Pow => "Pow" | ast.LShift => "LShift" | ast.RShift => "RShift"
  | ast.BitOr => "BitOr" | ast.BitXor => "BitXor" | ast.BitAnd => "BitAnd"
  | ast.FloorDiv => "FloorDiv"
  end.

Definition from_operator (op : ast.operator) : result string :=
  match op_map op with
  | None => Raise (RuntimeError ("Unknown operator " +:+ operator_class op))
  | Some op_name =>
      if String.eqb op_name "@"
      then Raise (RuntimeError "mypy does not support the MatMult operator")
      else OK op_name
  end.

(** [comp_op_map.get(type(op))] *)
Definition comp_op_map (op : ast.cmpop) : option string :=
  match op with
  | ast.Gt => Some ">" | ast.Lt => Some "<" | ast.Eq => Some "=="
  | ast.GtE => Some ">=" | ast.LtE => Some "<=" | ast.NotEq => Some "!="
  | ast.Is => Some "is" | ast.IsNot => Some "is not" | ast.In => Some "in"
  | ast.NotIn => Some "not in"
  end.

Definition from_comp_operator (op : ast.cmpop) : result string :=
  match comp_op_map op with
  | None => Raise (RuntimeError "Unknown comparison operator")
  | Some op_name => OK op_name
  end.

(** The local function [group] of [visit_BoolOp]; [vals[0]] on an empty
    list raises [IndexError]. *)
Fixpoint group (op : string) (vals : list Node) : result Node :=
  match vals with
  | [v0; v1] => OK (new (OpExpr op v0 v1))
  | v0 :: rest => let* r := group op rest in OK (new (OpExpr op v0 r))
  | [] => Raise IndexError
  end.

Section expressions.
Variable h : host.
(** Bound on the nesting of quoted types, see [parse_type_comment]. *)
Variable depth : nat.
(** [self.visit] on an expression and on a slice. *)
Variable visit : ast.expr -> result Node.
Variable visit_slice : ast.slice -> result Node.

Definition generic_visit {A} (cls : string) : result A :=
  Raise (RuntimeError ("AST node not implemented: " +:+ cls)).

(** [visit_list] and [visit_NoneType]. *)
Definition visit_list (l : list ast.expr) : result (list Node) := mapM visit l.
Definition visit_opt (o : option ast.expr) : result (option Node) := optM visit o.

(** The local function [make_argument] of [transform_args]. *)
Definition make_argument (line : Z) (arg : ast.arg) (default : option ast.expr)
    (kind : ArgKind) : result Argument_ :=
  match arg with
  | ast.Arg name annotation _ =>
      let* arg_type := TypeConverter_visit_opt h depth line annotation in
      let* init := visit_opt default in
      OK (Argument (new (Var name None)) arg_type init kind)
  end.

Definition transform_args (args : ast.arguments) (line : Z) : result (list Argument_) :=
  match args with
  | ast.Arguments_ a_args vararg kwonlyargs kw_defaults kwarg defaults =>
      let num_no_defaults := Z.of_nat (length a_args) - Z.of_nat (length defaults) in
      (* positional arguments without defaults *)
      let* pos := mapM (fun a => make_argument line a None ARG_POS)
                       (slice_to a_args num_no_defaults) in
      (* positional arguments with defaults *)
      let* opt := zipM (fun a d => make_argument line a (Some d) ARG_OPT)
                       (slice_from a_args num_no_defaults) defaults in
      (* *arg *)
      let* star := match vararg with
                   | Some v => let* a := make_argument line v None ARG_STAR in OK [a]
                   | None => OK []
                   end in
      let num_no_kw_defaults :=
        Z.of_nat (length kwonlyargs) - Z.of_nat (length kw_defaults) in
      (* keyword-only arguments without defaults *)
      let* named := mapM (fun a => make_argument line a None ARG_NAMED)
                         (slice_to kwonlyargs num_no_kw_defaults) in
      (* keyword-only arguments with defaults *)
      let* named_opt := zipM (fun a d => make_argument line a d ARG_NAMED)
                             (slice_from kwonlyargs num_no_kw_defaults) kw_defaults in
      (* **kwarg *)
      let* star2 := match kwarg with
                    | Some v => let* a := make_argument line v None ARG_STAR2 in OK [a]
                    | None => OK []
                    end in
      OK (pos ++ opt ++ star ++ named ++ named_opt ++ star2)
  end.

(** [visit_Return] is a statement method; [visit_Lambda] also runs it, on
    the [Return] that it builds itself. *)
Definition visit_Return (value : option ast.expr) : result Node :=
  let* v := visit_opt value in OK (new (ReturnStmt v)).

(** [n.op] is [And] or [Or]: the branch that raises for another operator
    has no input. *)
Definition visit_BoolOp (op : ast.boolop) (values : list ast.expr) : result Node :=
  if negb (2 <=? length values)%nat then Raise (AssertionError "") else
  let op := match op with ast.And => "and" | ast.Or => "or" end in
  let* vals := visit_list values in
  group op vals.

(** [from_operator] returns a name or raises, so the test [op is None] that
    follows it never holds. *)
Definition visit_BinOp (left : ast.expr) (op : ast.operator) (right : ast.expr)
    : result Node :=
  let* op := from_operator op in
  let* l := visit left in
  let* r := visit right in
  OK (new (OpExpr op l r)).

Definition visit_UnaryOp (op : ast.unaryop) (operand : ast.expr) : result Node :=
  let op_name :=
    match op with
    | ast.Invert => Some "~" | ast.Not => Some "not"
    | ast.UAdd => Some "+" | ast.USub => Some "-"
    end in
  match op_name with
  | None => Raise (RuntimeError "cannot translate UnaryOp")
  | Some op => let* e := visit operand in OK (new (UnaryExpr op e))
  end.

(** [body = typed_ast.Return(n.body)] is a one-statement list, so
    [as_block] builds the block: the converted [Return], stamped by its
    own [with_line] with the lambda's line. *)
Definition visit_Lambda (lineno : Z) (args : ast.arguments) (body : ast.expr)
    : result Node :=
  let* a := transform_args args lineno in
  let* ret := with_line (visit_Return (Some body)) lineno in
  OK (new (FuncExpr a (Some (set_line (Block [ret]) lineno)))).

Definition visit_IfExp (test body orelse : ast.expr) : result Node :=
  let* c := visit test in
  let* b := visit body in
  let* e := visit orelse in
  OK (new (ConditionalExpr c b e)).

Definition visit_Dict (keys : list (option ast.expr)) (values : list ast.expr)
    : result Node :=
  let* ks := mapM visit_opt keys in
  let* vs := visit_list values in
  OK (new (DictExpr (pyzip ks vs))).

Definition visit_Set (elts : list ast.expr) : result Node :=
  let* items := visit_list elts in OK (new (SetExpr items)).

Definition visit_GeneratorExp (elt : ast.expr) (generators : list ast.comprehension)
    : result Node :=
  let* targets := mapM (fun c => match c with ast.Comprehension t _ _ => visit t end)
                       generators in
  let* iters := mapM (fun c => match c with ast.Comprehension _ i _ => visit i end)
                     generators in
  let* ifs_list := mapM (fun c => match c with ast.Comprehension _ _ ifs => visit_list ifs end)
                        generators in
  let* e := visit elt in
  OK (new (GeneratorExpr e targets iters ifs_list)).

(** [self.visit_GeneratorExp] is the decorated method: it stamps the
    generator with the line of the comprehension it is given. *)
Definition visit_ListComp (lineno : Z) (elt : ast.expr)
    (generators : list ast.comprehension) : result Node :=
  let* g := with_line (visit_GeneratorExp elt generators) lineno in
  OK (new (ListComprehension g)).

Definition visit_SetComp (lineno : Z) (elt : ast.expr)
    (generators : list ast.comprehension) : result Node :=
  let* g := with_line (visit_GeneratorExp elt generators) lineno in
  OK (new (SetComprehension g)).

Definition visit_DictComp (key value : ast.expr) (generators : list ast.comprehension)
    : result Node :=
  let* targets := mapM (fun c => match c with ast.Comprehension t _ _ => visit t end)
                       generators in
  let* iters := mapM (fun c => match c with ast.Comprehension _ i _ => visit i end)
                     generators in
  let* ifs_list := mapM (fun c => match c with ast.Comprehension _ _ ifs => visit_list ifs end)
                        generators in
  let* k := visit key in
  let* v := visit value in
  OK (new (DictionaryComprehension k v targets iters ifs_list)).

Definition visit_Yield (value : option ast.expr) : result Node :=
  let* v := visit_opt value in OK (new (YieldExpr v)).

Definition visit_YieldFrom (value : ast.expr) : result Node :=
  let* v := visit value in OK (new (YieldFromExpr v)).

Definition visit_Compare (left : ast.expr) (ops : list ast.cmpop)
    (comparators : list ast.expr) : result Node :=
  let* operators := mapM from_comp_operator ops in
  let* operands := visit_list (left :: comparators) in
  OK (new (ComparisonExpr operators operands)).

Definition is_stararg (a : ast.expr) : bool :=
  match a with ast.At _ (ast.Starred _) => true | _ => false end.
Definition is_star2arg (k : ast.keyword) : bool :=
  match k with ast.Keyword None _ => true | _ => false end.

(** [self.visit(l1 + l2)] on the two comprehensions is the conversion of
    the first list followed by that of the second. *)
Definition visit_Call (func : ast.expr) (args : list ast.expr)
    (keywords : list ast.keyword) : result Node :=
  let* pos := mapM (fun a => match a with
                             | ast.At _ (ast.Starred value) => visit value
                             | _ => visit a
                             end) args in
  let* kws := mapM (fun k => match k with ast.Keyword _ value => visit value end)
                   keywords in
  let arg_kinds :=
    map (fun a => if is_stararg a then ARG_STAR else ARG_POS) args ++
    map (fun k => if is_star2arg k then ARG_STAR2 else ARG_NAMED) keywords in
  let* f := visit func in
  OK (new (CallExpr f (pos ++ kws) arg_kinds
             (map (fun _ => None) args ++
              map (fun k => match k with ast.Keyword arg _ => arg end) keywords))).

Definition visit_Num (n : ast.object) : result Node :=
  match n with
  | ast.PyInt z => OK (new (IntExpr z))
  | ast.PyFloat r => OK (new (FloatExpr r))
  | ast.PyComplex r => OK (new (ComplexExpr r))
  | ast.PyObject cls => Raise (RuntimeError ("num not implemented for " +:+ cls))
  end.

Definition visit_Str (s : string) : result Node := OK (new (StrExpr s)).

Definition visit_Bytes (s : list Byte.byte) : result Node :=
  OK (new (BytesExpr (str_slice (bytes_str h s) 2 (-1)))).

Definition visit_NameConstant (value : ast.singleton) : result Node :=
  OK (new (NameExpr (str_singleton value))).

Definition visit_Ellipsis : result Node := OK (new EllipsisExpr).

Definition visit_Attribute (value : ast.expr) (attr : string) : result Node :=
  match value with
  | ast.At _ (ast.Call (ast.At _ (ast.Name id)) _ _) =>
      if String.eqb id "super" then OK (new (SuperExpr attr))
      else let* v := visit value in OK (new (MemberExpr v attr))
  | _ => let* v := visit value in OK (new (MemberExpr v attr))
  end.

Definition visit_Subscript (value : ast.expr) (slice : ast.slice) : result Node :=
  let* v := visit value in
  let* s := visit_slice slice in
  OK (new (IndexExpr v s)).

Definition visit_Starred (value : ast.expr) : result Node :=
  let* v := visit value in OK (new (StarExpr v)).

Definition visit_Name (id : string) : result Node := OK (new (NameExpr id)).

Definition visit_List (elts : list ast.expr) : result Node :=
  let* items := mapM visit elts in OK (new (ListExpr items)).

Definition visit_Tuple (elts : list ast.expr) : result Node :=
  let* items := mapM visit elts in OK (new (TupleExpr items)).

Definition visit_Slice (lower upper step : option ast.expr) : result Node :=
  let* l := visit_opt lower in
  let* u := visit_opt upper in
  let* s := visit_opt step in
  OK (new (SliceExpr l u s)).

Definition visit_ExtSlice (dims : list ast.slice) : result Node :=
  let* items := mapM visit_slice dims in OK (new (TupleExpr items)).

Definition visit_Index (value : ast.expr) : result Node := visit value.
End expressions.

(** [self.visit(node)] on an expression and on a slice: the method of the
    node's class, under [with_line] where the method is decorated, and
    [generic_visit] where the class has no method. *)
Fixpoint visit_expr (h : host) (depth : nat) (n : ast.expr) {struct n} : result Node :=
  let visit := visit_expr h depth in
  match n with
  | ast.At lineno d =>
      match d with
      | ast.BoolOp op values => with_line (visit_BoolOp visit op values) lineno
      | ast.BinOp lhs op rhs => with_line (visit_BinOp visit lhs op rhs) lineno
      | ast.UnaryOp op operand => with_line (visit_UnaryOp visit op operand) lineno
      | ast.Lambda args body => with_line (visit_Lambda h depth visit lineno args body) lineno
      | ast.IfExp test body orelse => with_line (visit_IfExp visit test body orelse) lineno
      | ast.Dict keys values => with_line (visit_Dict visit keys values) lineno
      | ast.Set_ elts => with_line (visit_Set visit elts) lineno
      | ast.ListComp elt gens => with_line (visit_ListComp visit lineno elt gens) lineno
      | ast.SetComp elt gens => with_line (visit_SetComp visit lineno elt gens) lineno
      | ast.DictComp key value gens => with_line (visit_DictComp visit key value gens) lineno
      | ast.GeneratorExp elt gens => with_line (visit_GeneratorExp visit elt gens) lineno
      | ast.Await _ => generic_visit (expr_class d)
      | ast.Yield value => with_line (visit_Yield visit value) lineno
      | ast.YieldFrom value => with_line (visit_YieldFrom visit value) lineno
      | ast.Compare lhs ops comparators =>
          with_line (visit_Compare visit lhs ops comparators) lineno
      | ast.Call func args keywords => with_line (visit_Call visit func args keywords) lineno
      | ast.Num n => with_line (visit_Num n) lineno
      | ast.Str s => with_line (visit_Str s) lineno
      | ast.Bytes s => with_line (visit_Bytes h s) lineno
      | ast.NameConstant value => visit_NameConstant value
      | ast.Ellipsis => with_line visit_Ellipsis lineno
      | ast.Attribute value attr => with_line (visit_Attribute visit value attr) lineno
      | ast.Subscript value slice =>
          with_line (visit_Subscript visit (visit_slice h depth) value slice) lineno
      | ast.Starred value => with_line (visit_Starred visit value) lineno
      | ast.Name id => with_line (visit_Name id) lineno
      | ast.List elts => with_line (visit_List visit elts) lineno
      | ast.Tuple elts => with_line (visit_Tuple visit elts) lineno
      end
  end
with visit_slice (h : host) (depth : nat) (n : ast.slice) {struct n} : result Node :=
  match n with
  | ast.Slice lower upper step => visit_Slice (visit_expr h depth) lower upper step
  | ast.ExtSlice dims => visit_ExtSlice (visit_slice h depth) dims
  | ast.Index value => visit_Index (visit_expr h depth) value
  end.

(** *** Statements

The two attributes of the converter object are its state. *)

Record self_ := Self { in_class : bool; imports : list Node }.

(** Computations on the converter object: a result and the object as the
    computation left it, or an exception. *)
Definition M (A : Type) : Type := self_ -> result (A * self_).

Definition retM {A} (a : A) : M A := fun self => OK (a, self).
Definition bindM {A B} (m : M A) (k : A -> M B) : M B :=
  fun self => match m self with
              | OK (a, self') => k a self'
              | Raise e => Raise e
              end.
Definition liftR {A} (r : result A) : M A :=
  fun self => match r with OK a => OK (a, self) | Raise e => Raise e end.
Definition raiseM {A} (e : exn) : M A := fun _ => Raise e.
Definition get_in_class : M bool := fun self => OK (in_class self, self).
Definition set_in_class (b : bool) : M unit :=
  fun self => OK (tt, Self b (imports self)).
Definition get_imports : M (list Node) := fun self => OK (imports self, self).
(** [self.imports.append(i)] *)
Definition imports_append (i : Node) : M unit :=
  fun self => OK (tt, Self (in_class self) (imports self ++ [i])).

Notation "'let!' x ':=' m 'in' k" := (bindM m (fun x => k))
  (at level 10, x pattern, m at level 100, k at level 200).

Definition mapMM {A B} (f : A -> M B) : list A -> M (list B) :=
  fix go l :=
    match l with
    | [] => retM []
    | x :: t => let! y := f x in let! ys := go t in retM (y :: ys)
    end.

Definition with_lineM {A} (f : M (lined A)) (lineno : Z) : M (lined A) :=
  let! node := f in retM (set_line node lineno).

Definition stmt_class (d : ast.stmt_desc) : string :=
  match d with
  | ast.FunctionDef _ _ _ _ _ _ => "FunctionDef"
  | ast.AsyncFunctionDef _ _ _ _ _ _ => "AsyncFunctionDef"
  | ast.ClassDef _ _ _ _ _ => "ClassDef" | ast.Return _ => "Return"
  | ast.Delete _ => "Delete" | ast.Assign _ _ _ => "Assign"
  | ast.AugAssign _ _ _ => "AugAssign" | ast.For _ _ _ _ _ => "For"
  | ast.AsyncFor _ _ _ _ => "AsyncFor" | ast.While _ _ _ => "While"
  | ast.If _ _ _ => "If" | ast.With _ _ _ => "With"
  | ast.AsyncWith _ _ => "AsyncWith" | ast.Raise_ _ _ => "Raise"
  | ast.Try _ _ _ _ => "Try" | ast.Assert _ _ => "Assert"
  | ast.Import _ => "Import" | ast.ImportFrom _ _ _ => "ImportFrom"
  | ast.Global _ => "Global" | ast.Nonlocal _ => "Nonlocal"
  | ast.Expr _ => "Expr" | ast.Pass => "Pass" | ast.Break => "Break"
  | ast.Continue => "Continue"
  end.

(** [isinstance(stmt, Decorator)], with [stmt.name()] when it holds. *)
Definition decorator_name (stmt : Node) : option string :=
  match it stmt with
  | Decorator func _ _ => Some (FuncDef_name (it func))
  | _ => None
  end.

(** What the loop of [fix_function_overloads] appends to [ret] when a run
    ends: the pending definition alone, or the pending ones combined. *)
Definition flush (ret current_overload : list Node) : list Node :=
  match current_overload with
  | [] => ret
  | [d] => ret ++ [d]
  | _ :: _ :: _ => ret ++ [new (OverloadedFuncDef current_overload)]
  end.

(** One iteration of the loop, on the triple
    [(ret, current_overload, current_overload_name)]. *)
Definition overload_step (acc : list Node * list Node * option string) (stmt : Node)
    : list Node * list Node * option string :=
  let '(ret, current_overload, current_overload_name) := acc in
  match decorator_name stmt with
  | Some name =>
      if bool_decide (Some name = current_overload_name)
      then (ret, current_overload ++ [stmt], current_overload_name)
      else (flush ret current_overload, [stmt], Some name)
  | None => (flush ret current_overload ++ [stmt], [], None)
  end.

Definition fix_function_overloads (stmts : list Node) : list Node :=
  let '(ret, current_overload, _) := fold_left overload_step stmts ([], [], None) in
  flush ret current_overload.

Fixpoint stringify_name (n : ast.expr) : result string :=
  match n with
  | ast.At _ (ast.Name id) => OK id
  | ast.At _ (ast.Attribute value attr) =>
      let* v := stringify_name value in OK (v +:+ "." +:+ attr)
  | ast.At _ d => Raise (AssertionError ("can't stringify " +:+ expr_class d))
  end.

(** [x if x is not None else AnyType()] *)
Definition or_AnyType (t : option Type_) : Type_ :=
  match t with Some t => t | None => AnyType end.

Section statements.
Variable h : host.
Variable depth : nat.
(** [self.visit] on a statement. *)
Variable visit : ast.stmt -> M Node.

(** [self.visit] on an expression, an optional one and a list of them. *)
Definition visit_e (e : ast.expr) : M Node := liftR (visit_expr h depth e).
Definition visit_eo (o : option ast.expr) : M (option Node) :=
  liftR (visit_opt (visit_expr h depth) o).
Definition visit_el (l : list ast.expr) : M (list Node) :=
  liftR (visit_list (visit_expr h depth) l).

Definition as_block (stmts : list ast.stmt) (lineno : Z) : M (option Block_) :=
  match stmts with
  | [] => retM None
  | _ :: _ =>
      let! body := mapMM visit stmts in
      retM (Some (set_line (Block body) lineno))
  end.

Definition visit_Module (module : ast.module_) : M MypyFile_ :=
  match module with
  | ast.Module_ mod_body type_ignores =>
      let! stmts := mapMM visit mod_body in
      let body := fix_function_overloads stmts in
      let! imps := get_imports in
      retM (new_MypyFile body imps false
              (list_to_set (map (fun ti => match ti with ast.TypeIgnore l => l end)
                                type_ignores))
              ∅)
  end.

Definition visit_FunctionDef (lineno : Z) (name : string) (n_args : ast.arguments)
    (body : list ast.stmt) (decorator_list : list ast.expr)
    (returns : option ast.expr) (type_comment : option string) : M Node :=
  let! args := liftR (transform_args h depth (visit_expr h depth) n_args lineno) in
  let arg_kinds := map kind args in
  let arg_names := map (fun a => Var_name (variable a)) args in
  (* [arg_types] holds [None] for a parameter without annotation *)
  let! (arg_types, return_type) :=
    match type_comment with
    | Some tc =>
        let! func_type_ast := liftR (parse_func_type h tc) in
        match func_type_ast with
        | ast.FunctionType argtypes rets =>
            let! ts := liftR (TypeConverter_visit_list h depth lineno argtypes) in
            let arg_types := map Some ts in
            let! return_type := liftR (TypeConverter_visit h depth lineno rets) in
            (* add implicit self type *)
            let! in_cls := get_in_class in
            let arg_types :=
              if in_cls && (length arg_types <? length args)%nat
              then Some AnyType :: arg_types
              else arg_types in
            retM (arg_types, Some return_type)
        end
    | None =>
        let arg_types := map type_annotation args in
        let! return_type := liftR (TypeConverter_visit_opt h depth lineno returns) in
        retM (arg_types, return_type)
    end in
  let func_type :=
    if existsb (fun t => bool_decide (is_Some t)) arg_types
       || bool_decide (is_Some return_type)
    then Some (CallableType (map or_AnyType arg_types) arg_kinds arg_names
                            (or_AnyType return_type))
    else None in
  let! blk := as_block body lineno in
  match decorator_list with
  | [] => retM (new (FuncDefStmt (FuncDef name args blk func_type None)))
  | d0 :: _ =>
      let var := set_line (new (Var name (Some false))) (ast.lineno d0) in
      (* func_def.is_decorated = True
         func_def.set_line(n.lineno + len(n.decorator_list)) *)
      let func_line := lineno + Z.of_nat (length decorator_list) in
      (* func_def.body.set_line(func_def.get_line()) *)
      match blk with
      | None => raiseM AttributeError
      | Some b =>
          let func_def :=
            L (Some func_line)
              (FuncDef name args (Some (set_line b func_line)) func_type (Some true)) in
          let! decorators := visit_el decorator_list in
          retM (new (Decorator func_def decorators var))
      end
  end.

Definition visit_ClassDef (name : string) (bases : list ast.expr)
    (keywords : list ast.keyword) (body : list ast.stmt)
    (decorator_list : list ast.expr) : M Node :=
  let! _ := set_in_class true in
  let metaclass_arg :=
    find (fun x => match x with
                   | ast.Keyword arg _ => bool_decide (arg = Some "metaclass")
                   end) keywords in
  let! metaclass :=
    match metaclass_arg with
    | Some (ast.Keyword _ value) =>
        let! s := liftR (stringify_name value) in retM (Some s)
    | None => retM None
    end in
  let! stmts := mapMM visit body in
  let! base_type_exprs := visit_el bases in
  let! decorators := visit_el decorator_list in
  let cdef := new (ClassDef name (Block (fix_function_overloads stmts))
                            base_type_exprs metaclass decorators) in
  let! _ := set_in_class false in
  retM cdef.

Definition visit_Delete (lineno : Z) (targets : list ast.expr) : M Node :=
  if (1 <? length targets)%nat then
    let! items := visit_el targets in
    let tup := set_line (new (TupleExpr items)) lineno in
    retM (new (DelStmt tup))
  else
    match targets with
    | t0 :: _ => let! e := visit_e t0 in retM (new (DelStmt e))
    | [] => raiseM IndexError
    end.

Definition visit_Assign (lineno : Z) (targets : list ast.expr) (value : ast.expr)
    (type_comment : option string) : M Node :=
  let! typ :=
    match type_comment with
    | Some tc =>
        if bool_decide (tc = "") then retM None
        else let! t := liftR (parse_type_comment h depth tc lineno) in retM (Some t)
    | None => retM None
    end in
  let! lvalues := visit_el targets in
  let! rvalue := visit_e value in
  retM (new (AssignmentStmt lvalues rvalue typ)).

Definition visit_AugAssign (target : ast.expr) (op : ast.operator) (value : ast.expr)
    : M Node :=
  let! op := liftR (from_operator op) in
  let! lvalue := visit_e target in
  let! rvalue := visit_e value in
  retM (new (OperatorAssignmentStmt op lvalue rvalue)).

Definition visit_For (lineno : Z) (target iter : ast.expr)
    (body orelse : list ast.stmt) : M Node :=
  let! index := visit_e target in
  let! e := visit_e iter in
  let! b := as_block body lineno in
  let! els := as_block orelse lineno in
  retM (new (ForStmt index e b els)).

Definition visit_While (lineno : Z) (test : ast.expr)
    (body orelse : list ast.stmt) : M Node :=
  let! e := visit_e test in
  let! b := as_block body lineno in
  let! els := as_block orelse lineno in
  retM (new (WhileStmt e b els)).

Definition visit_If (lineno : Z) (test : ast.expr)
    (body orelse : list ast.stmt) : M Node :=
  let! e := visit_e test in
  let! b := as_block body lineno in
  let! els := as_block orelse lineno in
  retM (new (IfStmt [e] [b] els)).

Definition visit_With (lineno : Z) (items : list ast.withitem)
    (body : list ast.stmt) : M Node :=
  let! es := mapMM (fun i => match i with ast.WithItem c _ => visit_e c end) items in
  let! targets := mapMM (fun i => match i with ast.WithItem _ o => visit_eo o end) items in
  let! b := as_block body lineno in
  retM (new (WithStmt es targets b)).

Definition visit_Raise (exc cause : option ast.expr) : M Node :=
  let! e := visit_eo exc in
  let! c := visit_eo cause in
  retM (new (RaiseStmt e c)).

Definition visit_Try (lineno : Z) (body : list ast.stmt)
    (handlers : list ast.excepthandler) (orelse finalbody : list ast.stmt) : M Node :=
  let vs := map (fun hd => match hd with
                           | ast.ExceptHandler _ (Some name) _ _ => Some (new (NameExpr name))
                           | ast.ExceptHandler _ None _ _ => None
                           end) handlers in
  let! types := mapMM (fun hd => match hd with
                                 | ast.ExceptHandler type _ _ _ => visit_eo type
                                 end) handlers in
  let! hs := mapMM (fun hd => match hd with
                              | ast.ExceptHandler _ _ hbody hline => as_block hbody hline
                              end) handlers in
  let! b := as_block body lineno in
  let! els := as_block orelse lineno in
  let! fin := as_block finalbody lineno in
  retM (new (TryStmt b vs types hs els fin)).

Definition visit_Assert (test : ast.expr) (msg : option ast.expr) : M Node :=
  let! e := visit_e test in
  retM (new (AssertStmt e)).

(** [self.imports] holds the very object that is returned and then
    stamped by [with_line], so the entry of the list shows the line. *)
Definition visit_Import (lineno : Z) (names : list ast.alias) : M Node :=
  let i := new (Import (map (fun a => match a with ast.Alias n asn => (n, asn) end) names)) in
  let! _ := imports_append (set_line i lineno) in
  retM i.

Definition visit_ImportFrom (lineno : Z) (module : option string)
    (names : list ast.alias) (level : option Z) : M Node :=
  let i :=
    match names with
    | [ast.Alias "*" _] => new (ImportAll module level)
    | _ => new (ImportFrom (default "" module) level
                  (map (fun a => match a with ast.Alias n asn => (n, asn) end) names))
    end in
  let! _ := imports_append (set_line i lineno) in
  retM i.

Definition visit_Global (names : list string) : M Node := retM (new (GlobalDecl names)).
Definition visit_Nonlocal (names : list string) : M Node := retM (new (NonlocalDecl names)).

Definition visit_Expr (value : ast.expr) : M Node :=
  let! v := visit_e value in retM (new (ExpressionStmt v)).

Definition visit_Pass : M Node := retM (new PassStmt).
Definition visit_Break : M Node := retM (new BreakStmt).
Definition visit_Continue : M Node := retM (new ContinueStmt).
End statements.

(** [self.visit(node)] on a statement. *)
Fixpoint visit_stmt (h : host) (depth : nat) (n : ast.stmt) {struct n} : M Node :=
  let visit := visit_stmt h depth in
  match n with
  | ast.SAt lineno d =>
      match d with
      | ast.FunctionDef name args body decorator_list returns type_comment =>
          with_lineM (visit_FunctionDef h depth visit lineno name args body
                        decorator_list returns type_comment) lineno
      | ast.ClassDef name bases keywords body decorator_list =>
          with_lineM (visit_ClassDef h depth visit name bases keywords body decorator_list)
                     lineno
      | ast.Return value =>
          with_lineM (liftR (visit_Return (visit_expr h depth) value)) lineno
      | ast.Delete targets => with_lineM (visit_Delete h depth lineno targets) lineno
      | ast.Assign targets value type_comment =>
          with_lineM (visit_Assign h depth lineno targets value type_comment) lineno
      | ast.AugAssign target op value =>
          with_lineM (visit_AugAssign h depth target op value) lineno
      | ast.For target iter body orelse _ =>
          with_lineM (visit_For h depth visit lineno target iter body orelse) lineno
      | ast.While test body orelse =>
          with_lineM (visit_While h depth visit lineno test body orelse) lineno
      | ast.If test body orelse =>
          with_lineM (visit_If h depth visit lineno test body orelse) lineno
      | ast.With items body _ => with_lineM (visit_With h depth visit lineno items body) lineno
      | ast.Raise_ exc cause => with_lineM (visit_Raise h depth exc cause) lineno
      | ast.Try body handlers orelse finalbody =>
          with_lineM (visit_Try h depth visit lineno body handlers orelse finalbody) lineno
      | ast.Assert test msg => with_lineM (visit_Assert h depth test msg) lineno
      | ast.Import names => with_lineM (visit_Import lineno names) lineno
      | ast.ImportFrom module names level =>
          with_lineM (visit_ImportFrom lineno module names level) lineno
      | ast.Global names => with_lineM (visit_Global names) lineno
      | ast.Nonlocal names => with_lineM (visit_Nonlocal names) lineno
      | ast.Expr value => with_lineM (visit_Expr h depth value) lineno
      | ast.Pass => with_lineM visit_Pass lineno
      | ast.Break => with_lineM visit_Break lineno
      | ast.Continue => with_lineM visit_Continue lineno
      | ast.AsyncFunctionDef _ _ _ _ _ _ | ast.AsyncFor _ _ _ _ | ast.AsyncWith _ _ =>
          liftR (generic_visit (stmt_class d))
      end
  end.

(** [ASTConverter().visit(ast)] on a module: a fresh converter object. *)
Definition convert (h : host) (depth : nat) (module : ast.module_) : result MypyFile_ :=
  let* r := visit_Module (visit_stmt h depth) module (Self false []) in
  OK r.1.

End ASTConverter.

(** ** [parse] and the diagnostics sink *)

(** The sink [mypy.errors.Errors] is known to this module through the two
    calls it makes on it; a sink is the sequence of calls it has received. *)
Inductive sink_call :=
  | set_file (file : string)
  | report (line : Z) (msg : string).
Definition Errors := list sink_call.

(** [s.endswith(suffix)] *)
Definition endswith (s suffix : string) : bool :=
  let n := String.length s in
  let k := String.length suffix in
  (k <=? n)%nat && String.eqb (String.substring (n - k) k s) suffix.

(** [bool(fnam)]: neither [None] nor empty. *)
Definition truthy (fnam : option string) : bool :=
  match fnam with
  | Some s => negb (String.eqb s "")
  | None => false
  end.

(** [parse(source, fnam, errors)]: the tree or the exception, and the sink
    as the call leaves it.  [pyversion] and [custom_typing_module] are not
    used by the body. *)
Definition parse (h : host) (depth : nat) (source : string) (fnam : option string)
    (errors : option Errors) : result MypyFile_ * option Errors :=
  let is_stub_file := truthy fnam && endswith (default "" fnam) ".pyi" in
  match parse_exec h source fnam with
  | Raise (SyntaxError lineno msg) =>
      match errors with
      | Some sink =>
          (OK (new_MypyFile [] [] false ∅ ∅),
           Some (sink ++ [set_file (default "<input>" fnam); report lineno msg]))
      | None => (Raise (SyntaxError lineno msg), None)
      end
  | Raise e => (Raise e, errors)
  | OK ast =>
      match ASTConverter.convert h depth ast with
      | OK tree =>
          (OK (MypyFile (defs tree) (imports tree) (is_bom tree) (ignored_lines tree)
                        (weak_opts tree) (Some fnam) (Some is_stub_file)),
           errors)
      | Raise e => (Raise e, errors)
      end
  end.

Import ASTConverter.

(** ** What the specification says, in its own words

The definitions below are not taken from the code: they state the
grouping, the orderings and the reachability that the claims speak of,
and the theorems compare the code with them. *)

(** *** Overload folding *)

(** A run of definitions named [n] ends before [l]: there is no next
    statement, or the next one is not a decorated definition of that name. *)
Definition run_ends (n : string) (l : list Node) : Prop :=
  match l with
  | [] => True
  | s :: _ => decorator_name s ≠ Some n
  end.

(** [Folded stmts out]: [out] is [stmts] with every maximal run of two or
    more consecutive decorated definitions of one name replaced by one
    combined node holding the run in order, and everything else (a run of
    one, a statement that is not a decorated definition) kept as it is. *)
Inductive Folded : list Node -> list Node -> Prop :=
  | Folded_nil : Folded [] []
  | Folded_plain s l r :
      decorator_name s = None -> Folded l r -> Folded (s :: l) (s :: r)
  | Folded_single d n l r :
      decorator_name d = Some n -> run_ends n l -> Folded l r ->
      Folded (d :: l) (d :: r)
  | Folded_run run n l r :
      (2 <= length run)%nat ->
      Forall (fun d => decorator_name d = Some n) run ->
      run_ends n l -> Folded l r ->
      Folded (run ++ l) (new (OverloadedFuncDef run) :: r).

(** The loop of [fix_function_overloads] as a recursion on the statements
    still to come, with the pending run and its name. *)
Fixpoint overloads_from (cur : list Node) (name : option string) (l : list Node)
    : list Node :=
  match l with
  | [] => flush [] cur
  | s :: l' =>
      match decorator_name s with
      | Some n =>
          if bool_decide (Some n = name) then overloads_from (cur ++ [s]) name l'
          else flush [] cur ++ overloads_from [s] (Some n) l'
      | None => flush [] cur ++ s :: overloads_from [] None l'
      end
  end.

(** *** Argument descriptors *)




(** *** Boolean operators *)

Definition boolop_name (op : ast.boolop) : string :=
  match op with ast.And => "and" | ast.Or => "or" end.

(** [Op(v1, Op(v2, ... Op(v_{n-1}, v_n)))] for the operands [v1 :: rest]. *)
Fixpoint right_nested (op : string) (v1 : Node) (rest : list Node) : Node :=
  match rest with
  | [] => v1
  | v2 :: rest' => new (OpExpr op v1 (right_nested op v2 rest'))
  end.

(** [Op(Op(...Op(v1, v2)..., v_{n-1}), v_n)]: the other nesting. *)
Definition left_nested (op : string) (v1 : Node) (rest : list Node) : Node :=
  fold_left (fun acc v => new (OpExpr op acc v)) rest v1.

(** How many times one can descend into the left operand of an operator. *)
Fixpoint left_spine (k : Kind) : nat :=
  match k with
  | OpExpr _ l _ => S (left_spine (it l))
  | _ => O
  end.

(** *** Function definitions *)

(** The declared signature of a converted function definition, decorated
    or not. *)
Definition declared_type (node : Node) : option Type_ :=
  match it node with
  | FuncDefStmt f => FuncDef_type f
  | Decorator f _ _ => FuncDef_type (it f)
  | _ => None
  end.

(** The statements of a converted class body. *)
Definition class_defs (node : Node) : list Node :=
  match it node with
  | ClassDef _ defs _ _ _ => it defs
  | _ => []
  end.

(** *** The nodes that a conversion visits *)

Inductive anode :=
  | AModule (m : ast.module_)
  | AStmt (s : ast.stmt)
  | AExpr (e : ast.expr)
  | ASlice (s : ast.slice).

(** The test of [visit_Attribute] for [super().attr]. *)
Definition is_super_call (value : ast.expr) : bool :=
  match value with
  | ast.At _ (ast.Call (ast.At _ (ast.Name id)) _ _) => String.eqb id "super"
  | _ => false
  end.

(** [a.value if is_stararg(a) else a] *)
Definition unstar (a : ast.expr) : ast.expr :=
  match a with ast.At _ (ast.Starred value) => value | _ => a end.

Definition keyword_value (k : ast.keyword) : ast.expr :=
  match k with ast.Keyword _ value => value end.

Definition comprehension_exprs (c : ast.comprehension) : list ast.expr :=
  match c with ast.Comprehension target iter ifs => target :: iter :: ifs end.

(** The defaults that [transform_args] converts, for a parameter list in
    which no default list is longer than its parameter list. *)
Definition visited_defaults (a : ast.arguments) : list ast.expr :=
  match a with
  | ast.Arguments_ args _ kwonlyargs kw_defaults _ defaults =>
      (if bool_decide (length defaults <= length args)%nat then defaults else [])
      ++ (if bool_decide (length kw_defaults <= length kwonlyargs)%nat
          then omap id kw_defaults else [])
  end.

Definition expr_children (d : ast.expr_desc) : list anode :=
  match d with
  | ast.BoolOp _ values => AExpr <$> values
  | ast.BinOp l _ r => [AExpr l; AExpr r]
  | ast.UnaryOp _ operand => [AExpr operand]
  | ast.Lambda args body => AExpr <$> (visited_defaults args ++ [body])
  | ast.IfExp test body orelse => [AExpr test; AExpr body; AExpr orelse]
  | ast.Dict keys values => AExpr <$> (omap id keys ++ values)
  | ast.Set_ elts => AExpr <$> elts
  | ast.ListComp elt gens | ast.SetComp elt gens | ast.GeneratorExp elt gens =>
      AExpr <$> ((gens ≫= comprehension_exprs) ++ [elt])
  | ast.DictComp key value gens =>
      AExpr <$> ((gens ≫= comprehension_exprs) ++ [key; value])
  | ast.Yield value => AExpr <$> option_list value
  | ast.YieldFrom value => [AExpr value]
  | ast.Compare l _ comparators => AExpr <$> (l :: comparators)
  | ast.Call func args keywords =>
      AExpr <$> ((unstar <$> args) ++ (keyword_value <$> keywords) ++ [func])
  | ast.Attribute value _ => if is_super_call value then [] else [AExpr value]
  | ast.Subscript value slice => [AExpr value; ASlice slice]
  | ast.Starred value => [AExpr value]
  | ast.List elts | ast.Tuple elts => AExpr <$> elts
  | ast.Await _ | ast.Num _ | ast.Str _ | ast.Bytes _ | ast.NameConstant _
  | ast.Ellipsis | ast.Name _ => []
  end.

Definition slice_children (s : ast.slice) : list anode :=
  match s with
  | ast.Slice lower upper step =>
      AExpr <$> (option_list lower ++ option_list upper ++ option_list step)
  | ast.ExtSlice dims => ASlice <$> dims
  | ast.Index value => [AExpr value]
  end.

Definition withitem_exprs (i : ast.withitem) : list ast.expr :=
  match i with ast.WithItem c o => c :: option_list o end.

Definition handler_children (hd : ast.excepthandler) : list anode :=
  match hd with
  | ast.ExceptHandler type _ body _ => (AExpr <$> option_list type) ++ (AStmt <$> body)
  end.

Definition stmt_children (d : ast.stmt_desc) : list anode :=
  match d with
  | ast.FunctionDef _ args body decorator_list _ _ =>
      (AExpr <$> visited_defaults args) ++ (AStmt <$> body) ++ (AExpr <$> decorator_list)
  | ast.ClassDef _ bases _ body decorator_list =>
      (AStmt <$> body) ++ (AExpr <$> (bases ++ decorator_list))
  | ast.Return value => AExpr <$> option_list value
  | ast.Delete targets => AExpr <$> targets
  | ast.Assign targets value _ => AExpr <$> (targets ++ [value])
  | ast.AugAssign target _ value => [AExpr target; AExpr value]
  | ast.For target iter body orelse _ =>
      [AExpr target; AExpr iter] ++ (AStmt <$> (body ++ orelse))
  | ast.While test body orelse | ast.If test body orelse =>
      AExpr test :: (AStmt <$> (body ++ orelse))
  | ast.With items body _ =>
      (AExpr <$> (items ≫= withitem_exprs)) ++ (AStmt <$> body)
  | ast.Raise_ exc cause => AExpr <$> (option_list exc ++ option_list cause)
  | ast.Try body handlers orelse finalbody =>
      (handlers ≫= handler_children) ++ (AStmt <$> (body ++ orelse ++ finalbody))
  | ast.Assert test _ => [AExpr test]
  | ast.Expr value => [AExpr value]
  | ast.AsyncFunctionDef _ _ _ _ _ _ | ast.AsyncFor _ _ _ _ | ast.AsyncWith _ _
  | ast.Import _ | ast.ImportFrom _ _ _ | ast.Global _ | ast.Nonlocal _
  | ast.Pass | ast.Break | ast.Continue => []
  end.

(** The nodes on which the conversion of a node calls [self.visit]: the
    message of an [assert], the call under [super().attr], the keywords of
    a class and everything that goes to the [TypeConverter] (annotations,
    type comments) are not among them. *)
Definition children (n : anode) : list anode :=
  match n with
  | AModule (ast.Module_ body _) => AStmt <$> body
  | AStmt (ast.SAt _ d) => stmt_children d
  | AExpr (ast.At _ d) => expr_children d
  | ASlice s => slice_children s
  end.

Definition visits (p c : anode) : Prop := c ∈ children p.




(** *** Line numbers of types *)

(** Every type object of [t] carries [line], or is the line-less type of a
    singleton constant. *)
Fixpoint lines_ok (line : Z) (t : Type_) : Prop :=
  match t with
  | AnyType => True
  | UnboundType name args l =>
      (l = Some line ∨ (l = None ∧ args = [] ∧ ∃ v, name = str_singleton v))
      ∧ (fix all ts := match ts with [] => True | x :: r => lines_ok line x ∧ all r end) args
  | TupleType items _ l | TypeList items l =>
      l = Some line
      ∧ (fix all ts := match ts with [] => True | x :: r => lines_ok line x ∧ all r end) items
  | EllipsisType l => l = Some line
  | CallableType arg_types _ _ ret =>
      (fix all ts := match ts with [] => True | x :: r => lines_ok line x ∧ all r end) arg_types
      ∧ lines_ok line ret
  end.

(** The size of an expression along the paths that the type converter
    follows. *)
Fixpoint type_size (e : ast.expr) : nat :=
  match e with
  | ast.At _ d =>
      match d with
      | ast.Subscript value sl =>
          S (type_size value
             + match sl with
               | ast.Index v => type_size v
               | _ => 0
               end)
      | ast.Tuple elts | ast.List elts =>
          S ((fix sum l := match l with [] => 0 | x :: r => type_size x + sum r end) elts)%nat
      | ast.Attribute value _ => S (type_size value)
      | _ => 1
      end
  end.

(** ** Inputs of the examples *)

Definition name_ (l : Z) (id : string) : ast.expr := ast.At l (ast.Name id).

(** [a @ b] *)
Definition demo_matmul : ast.expr :=
  ast.At 1 (ast.BinOp (name_ 1 "a") ast.MatMult (name_ 1 "b")).

(** [assert x, a @ b] and [x = a @ b] *)
Definition demo_assert : ast.stmt :=
  ast.SAt 1 (ast.Assert (name_ 1 "x") (Some demo_matmul)).
Definition demo_assert_module : ast.module_ := ast.Module_ [demo_assert] [].
Definition demo_assign : ast.stmt :=
  ast.SAt 1 (ast.Assign [name_ 1 "x"] demo_matmul None).
Definition demo_assign_module : ast.module_ := ast.Module_ [demo_assign] [].

(** A host that parses the few texts of the examples and rejects every
    other text with a syntax error. *)
Definition demo_host : host :=
  Host
    (fun source _ =>
       if String.eqb source "assert x, a @ b" then OK demo_assert_module
       else if String.eqb source "x = a @ b" then OK demo_assign_module
       else Raise (SyntaxError 1 "invalid syntax"))
    (fun text =>
       if String.eqb text "int" then OK (name_ 1 "int")
       else Raise (SyntaxError 1 "invalid syntax"))
    (fun text =>
       if String.eqb text "(int) -> None" then
         OK (ast.FunctionType [name_ 1 "int"] (ast.At 1 (ast.NameConstant ast.PyNone)))
       else if String.eqb text "() -> None" then
         OK (ast.FunctionType [] (ast.At 1 (ast.NameConstant ast.PyNone)))
       else Raise (SyntaxError 1 "invalid syntax"))
    (fun _ => "b''")
    (fun s => s).

Definition args_of (names : list string) : ast.arguments :=
  ast.Arguments_ (map (fun n => ast.Arg n None 1) names) None [] [] None [].

(** [def f(self, x):  # type: (int) -> None] at line [l], with body [pass]. *)
Definition method_f (l : Z) : ast.stmt :=
  ast.SAt l (ast.FunctionDef "f" (args_of ["self"; "x"]) [ast.SAt (l + 1) ast.Pass]
               [] None (Some "(int) -> None")).

(** [class Inner: pass] at line [l]. *)
Definition inner_class (l : Z) : ast.stmt :=
  ast.SAt l (ast.ClassDef "Inner" [] [] [ast.SAt (l + 1) ast.Pass] []).

(** [class Outer] with the method after the nested class, and before it. *)
Definition outer_class : ast.stmt :=
  ast.SAt 1 (ast.ClassDef "Outer" [] [] [inner_class 2; method_f 4] []).
Definition outer_class' : ast.stmt :=
  ast.SAt 1 (ast.ClassDef "Outer" [] [] [method_f 2; inner_class 4] []).

(** [def g(a, b):  # type: () -> None] at line 5: the comment lists two
    types fewer than there are parameters. *)
Definition two_fewer : ast.stmt :=
  ast.SAt 5 (ast.FunctionDef "g" (args_of ["a"; "b"]) [ast.SAt 6 ast.Pass]
               [] None (Some "() -> None")).



(** Converted statements: two overloads of [f], a [pass], a lone
    decorated [g]. *)
Definition demo_decorator (name : string) (l : Z) : Node :=
  L (Some l)
    (Decorator (L (Some (l + 1)) (FuncDef name [] None None (Some true)))
               [L (Some l) (NameExpr "overload")]
               (L (Some l) (Var name (Some false)))).
Definition demo_pass : Node := L (Some 5) PassStmt.
Definition demo_stmts : list Node :=
  [demo_decorator "f" 1; demo_decorator "f" 3; demo_pass; demo_decorator "g" 6].

(** ** Further notions and inputs

What the theorems of the last part speak of: notions that are not in the
code, and inputs of their examples. *)

(** The statements that a node of the converted list stands for: the items
    of a combined node, the node itself otherwise. *)
Definition overload_items (n : Node) : list Node :=
  match it n with
  | OverloadedFuncDef items => items
  | _ => [n]
  end.

Definition is_overloaded (n : Node) : bool :=
  match it n with
  | OverloadedFuncDef _ => true
  | _ => false
  end.

(** [tree.imports] of a converted file ([imports] by itself is the attribute
    of the converter object from here on). *)
Definition tree_imports (tree : MypyFile_) : list Node :=
  match tree with
  | MypyFile _ i _ _ _ _ _ => i
  end.

(** The expression [first.a1.a2...] and its text. *)
Definition dotted_name (l : Z) (first : string) (attrs : list string) : ast.expr :=
  fold_left (fun value attr => ast.At l (ast.Attribute value attr)) attrs
            (ast.At l (ast.Name first)).
Definition dotted_text (first : string) (attrs : list string) : string :=
  fold_left (fun text attr => text +:+ "." +:+ attr) attrs first.

(** The node classes for which [TypeConverter] has a method. *)
Definition has_type_method (d : ast.expr_desc) : bool :=
  match d with
  | ast.Name _ | ast.NameConstant _ | ast.Str _ | ast.Subscript _ _
  | ast.Tuple _ | ast.Attribute _ _ | ast.Ellipsis | ast.List _ => true
  | _ => false
  end.

(** [X[int][str]], a subscript of a subscript. *)
Definition demo_subscript2 : ast.expr :=
  ast.At 1 (ast.Subscript
              (ast.At 1 (ast.Subscript (name_ 1 "X") (ast.Index (name_ 1 "int"))))
              (ast.Index (name_ 1 "str"))).

(** Attribute accesses stacked on any expression: [base.a1.a2...]. *)
Definition attributes_on (l : Z) (base : ast.expr) (attrs : list string) : ast.expr :=
  fold_left (fun value attr => ast.At l (ast.Attribute value attr)) attrs base.

(** [metaclass=abc.ABCMeta] *)
Definition demo_metaclass : ast.expr := dotted_name 1 "abc" ["ABCMeta"].

Definition keyword_arg (k : ast.keyword) : option string :=
  match k with ast.Keyword arg _ => arg end.

(** [f(a, *b, k=c, **d)] *)
Definition demo_call : ast.expr :=
  ast.At 1 (ast.Call (name_ 1 "f")
              [name_ 1 "a"; ast.At 1 (ast.Starred (name_ 1 "b"))]
              [ast.Keyword (Some "k") (name_ 1 "c"); ast.Keyword None (name_ 1 "d")]).

(** [a < b <= c] *)
Definition demo_compare : ast.expr :=
  ast.At 1 (ast.Compare (name_ 1 "a") [ast.Lt; ast.LtE] [name_ 1 "b"; name_ 1 "c"]).


(** A host whose [str] of a bytes object is fixed to the text [b'ab']. *)
Definition bytes_host : host :=
  Host (parse_exec demo_host) (parse_eval demo_host) (parse_func_type demo_host)
       (fun _ => "b'ab'") (str_strip demo_host).


(** [b] is what [as_block(stmts, lineno)] gives when it returns: nothing
    for an empty list, and otherwise a block under [lineno] with one
    statement for each statement of the list. *)
Definition block_of (lineno : Z) (stmts : list ast.stmt) (b : option Block_) : Prop :=
  match b with
  | None => stmts = []
  | Some blk => stmts ≠ [] ∧ line blk = Some lineno ∧ length (it blk) = length stmts
  end.

(** Two overloads of [f] under [if x:], at lines 2 to 5 *)
Definition overload_def (l : Z) : ast.stmt :=
  ast.SAt (l + 1) (ast.FunctionDef "f" (args_of []) [ast.SAt (l + 1) ast.Pass]
                     [name_ l "overload"] None None).
Definition demo_if : ast.stmt :=
  ast.SAt 1 (ast.If (name_ 1 "x") [overload_def 2; overload_def 4] []).


(** [a[1:2]] *)
Definition demo_slice : ast.slice :=
  ast.Slice (Some (ast.At 1 (ast.Num (ast.PyInt 1))))
            (Some (ast.At 1 (ast.Num (ast.PyInt 2)))) None.

(** *** The size of a source tree

The number of nodes of an expression, a slice and a statement, along the
children that the conversion can visit. *)

Definition comprehension_size (size : ast.expr -> nat) (c : ast.comprehension) : nat :=
  match c with
  | ast.Comprehension target iter ifs => size target + size iter + sum_list_with size ifs
  end.

Definition arguments_size (size : ast.expr -> nat) (a : ast.arguments) : nat :=
  match a with
  | ast.Arguments_ _ _ _ kw_defaults _ defaults =>
      sum_list_with size defaults + sum_list_with (from_option size 0%nat) kw_defaults
  end.

Fixpoint expr_size (e : ast.expr) : nat :=
  match e with
  | ast.At _ d =>
      S match d with
        | ast.BoolOp _ values => sum_list_with expr_size values
        | ast.BinOp l _ r => expr_size l + expr_size r
        | ast.UnaryOp _ operand => expr_size operand
        | ast.Lambda args body => arguments_size expr_size args + expr_size body
        | ast.IfExp test body orelse => expr_size test + expr_size body + expr_size orelse
        | ast.Dict keys values =>
            sum_list_with (from_option expr_size 0%nat) keys + sum_list_with expr_size values
        | ast.Set_ elts | ast.List elts | ast.Tuple elts => sum_list_with expr_size elts
        | ast.ListComp elt gens | ast.SetComp elt gens | ast.GeneratorExp elt gens =>
            expr_size elt + sum_list_with (comprehension_size expr_size) gens
        | ast.DictComp key value gens =>
            expr_size key + expr_size value
            + sum_list_with (comprehension_size expr_size) gens
        | ast.Await value | ast.YieldFrom value | ast.Starred value
        | ast.Attribute value _ => expr_size value
        | ast.Yield value => from_option expr_size 0%nat value
        | ast.Compare l _ comparators => expr_size l + sum_list_with expr_size comparators
        | ast.Call func args keywords =>
            expr_size func + sum_list_with expr_size args
            + sum_list_with (fun k => match k with ast.Keyword _ v => expr_size v end) keywords
        | ast.Subscript value sl => expr_size value + slice_size sl
        | ast.Num _ | ast.Str _ | ast.Bytes _ | ast.NameConstant _ | ast.Ellipsis
        | ast.Name _ => 0
        end
  end
with slice_size (s : ast.slice) : nat :=
  S match s with
    | ast.Slice lower upper step =>
        from_option expr_size 0%nat lower + from_option expr_size 0%nat upper
        + from_option expr_size 0%nat step
    | ast.ExtSlice dims => sum_list_with slice_size dims
    | ast.Index value => expr_size value
    end.

Definition withitem_size (i : ast.withitem) : nat :=
  match i with
  | ast.WithItem c o => expr_size c + from_option expr_size 0%nat o
  end.

Fixpoint stmt_size (s : ast.stmt) : nat :=
  match s with
  | ast.SAt _ d =>
      S match d with
        | ast.FunctionDef _ args body decorator_list _ _ =>
            arguments_size expr_size args + sum_list_with stmt_size body
            + sum_list_with expr_size decorator_list
        | ast.ClassDef _ bases _ body decorator_list =>
            sum_list_with stmt_size body + sum_list_with expr_size bases
            + sum_list_with expr_size decorator_list
        | ast.Return value => from_option expr_size 0%nat value
        | ast.Delete targets => sum_list_with expr_size targets
        | ast.Assign targets value _ => sum_list_with expr_size targets + expr_size value
        | ast.AugAssign target _ value => expr_size target + expr_size value
        | ast.For target iter body orelse _ =>
            expr_size target + expr_size iter + sum_list_with stmt_size body
            + sum_list_with stmt_size orelse
        | ast.While test body orelse | ast.If test body orelse =>
            expr_size test + sum_list_with stmt_size body + sum_list_with stmt_size orelse
        | ast.With items body _ =>
            sum_list_with withitem_size items + sum_list_with stmt_size body
        | ast.Raise_ exc cause =>
            from_option expr_size 0%nat exc + from_option expr_size 0%nat cause
        | ast.Try body handlers orelse finalbody =>
            sum_list_with
              (fun hd => match hd with
                         | ast.ExceptHandler type _ hbody _ =>
                             (from_option expr_size 0 type
                              + sum_list_with stmt_size hbody)%nat
                         end) handlers
            + sum_list_with stmt_size body + sum_list_with stmt_size orelse
            + sum_list_with stmt_size finalbody
        | ast.Assert test _ => expr_size test
        | ast.Expr value => expr_size value
        | ast.AsyncFunctionDef _ _ _ _ _ _ | ast.AsyncFor _ _ _ _ | ast.AsyncWith _ _
        | ast.Import _ | ast.ImportFrom _ _ _ | ast.Global _ | ast.Nonlocal _
        | ast.Pass | ast.Break | ast.Continue => 0
        end
  end.

Definition anode_size (n : anode) : nat :=
  match n with
  | AModule (ast.Module_ body _) => S (sum_list_with stmt_size body)
  | AStmt s => stmt_size s
  | AExpr e => expr_size e
  | ASlice s => slice_size s
  end.

(** *** The import statements and the class definitions of a statement *)

Definition alias_pair (a : ast.alias) : string * option string :=
  match a with ast.Alias name asname => (name, asname) end.

(** The import nodes of a statement, itself or at any depth inside it, in
    the order in which the conversion meets them: for a [try], the bodies of
    the handlers come before the body of the [try]. *)
Fixpoint stmt_imports (s : ast.stmt) : list Node :=
  match s with
  | ast.SAt lineno d =>
      match d with
      | ast.Import names => [L (Some lineno) (Import (alias_pair <$> names))]
      | ast.ImportFrom module names level =>
          [L (Some lineno)
             match names with
             | [ast.Alias "*" _] => ImportAll module level
             | _ => ImportFrom (default "" module) level (alias_pair <$> names)
             end]
      | ast.FunctionDef _ _ body _ _ _ | ast.ClassDef _ _ _ body _ | ast.With _ body _ =>
          body ≫= stmt_imports
      | ast.For _ _ body orelse _ | ast.While _ body orelse | ast.If _ body orelse =>
          (body ≫= stmt_imports) ++ (orelse ≫= stmt_imports)
      | ast.Try body handlers orelse finalbody =>
          (handlers ≫= (fun hd => match hd with
                                  | ast.ExceptHandler _ _ hbody _ => hbody ≫= stmt_imports
                                  end))
          ++ (body ≫= stmt_imports) ++ (orelse ≫= stmt_imports)
          ++ (finalbody ≫= stmt_imports)
      | _ => []
      end
  end.

(** Whether a statement is a class definition or has one inside it, at any
    depth. *)
Fixpoint contains_class (s : ast.stmt) : bool :=
  match s with
  | ast.SAt _ d =>
      match d with
      | ast.ClassDef _ _ _ _ _ => true
      | ast.FunctionDef _ _ body _ _ _ | ast.With _ body _ => existsb contains_class body
      | ast.For _ _ body orelse _ | ast.While _ body orelse | ast.If _ body orelse =>
          existsb contains_class body || existsb contains_class orelse
      | ast.Try body handlers orelse finalbody =>
          existsb (fun hd => match hd with
                             | ast.ExceptHandler _ _ hbody _ => existsb contains_class hbody
                             end) handlers
          || existsb contains_class body || existsb contains_class orelse
          || existsb contains_class finalbody
      | _ => false
      end
  end.

(** The converter object after a conversion that met the imports [imps],
    and a class definition if [cls]. *)
Definition after (cls : bool) (imps : list Node) (self : self_) : self_ :=
  Self (in_class self && negb cls) (imports self ++ imps).

(** A computation that leaves the converter object so, when it returns. *)
Definition Effect {A} (m : M A) (cls : bool) (imps : list Node) : Prop :=
  ∀ self a self', m self = OK (a, self') -> self' = after cls imps self.

(** [import a] under [try] at line 2, [import b] under [except] at line 4. *)
Definition demo_try : ast.stmt :=
  ast.SAt 1 (ast.Try [ast.SAt 2 (ast.Import [ast.Alias "a" None])]
                     [ast.ExceptHandler None None
                        [ast.SAt 4 (ast.Import [ast.Alias "b" None])] 3]
                     [] []).

(** A module of two statements with type-ignore comments on lines 1 and 3. *)
Definition demo_module : ast.module_ :=
  ast.Module_ [demo_try; demo_assert] [ast.TypeIgnore 1; ast.TypeIgnore 3].

(** [with a as x, b: pass] at line 1. *)
Definition demo_with : ast.stmt :=
  ast.SAt 1 (ast.With [ast.WithItem (name_ 1 "a") (Some (name_ 1 "x"));
                       ast.WithItem (name_ 1 "b") None]
                      [ast.SAt 2 ast.Pass] None).

(** [try: pass] at line 1 with [except E as e: pass] at line 3. *)
Definition demo_handler : ast.stmt :=
  ast.SAt 1 (ast.Try [ast.SAt 2 ast.Pass]
                     [ast.ExceptHandler (Some (name_ 3 "E")) (Some "e")
                        [ast.SAt 4 ast.Pass] 3]
                     [] []).



(** *** Inputs that the conversion accepts *)

(** A computation that returns; on the converter object, whatever its
    state. *)
Definition returnsR {A} (r : result A) : Prop := ∃ a, r = OK a.
Definition returnsM {A} (m : M A) : Prop := ∀ self, ∃ a self', m self = OK (a, self').

(** The annotation of a parameter, if any, converts to a type. *)
Definition annotation_ok (h : host) (depth : nat) (line : Z) (x : ast.arg) : Prop :=
  match x with
  | ast.Arg _ (Some e) _ => returnsR (TypeConverter_visit h depth line e)
  | ast.Arg _ None _ => True
  end.

(** A parameter list with no more defaults than parameters, and whose
    annotations convert. *)
Definition arguments_ok (h : host) (depth : nat) (line : Z) (args : ast.arguments) : Prop :=
  match args with
  | ast.Arguments_ a vararg kw kw_defaults kwarg defaults =>
      (length defaults <= length a)%nat ∧ (length kw_defaults <= length kw)%nat
      ∧ Forall (annotation_ok h depth line)
               (a ++ option_list vararg ++ kw ++ option_list kwarg)
  end.

(** What the conversion of one node asks of the node itself, its visited
    children apart: a construct that has a conversion, the operands,
    targets and body that the methods index or dereference, and types
    (annotations, type comments, the metaclass) that convert. *)
Definition node_ok (h : host) (depth : nat) (n : anode) : Prop :=
  match n with
  | AExpr (ast.At lineno d) =>
      match d with
      | ast.BoolOp _ values => (2 <= length values)%nat
      | ast.BinOp _ op _ => op ≠ ast.MatMult
      | ast.Lambda args _ => arguments_ok h depth lineno args
      | ast.Num (ast.PyObject _) => False
      | ast.Await _ => False
      | _ => True
      end
  | AStmt (ast.SAt lineno d) =>
      match d with
      | ast.FunctionDef _ args body decorator_list rets type_comment =>
          arguments_ok h depth lineno args
          ∧ (decorator_list ≠ [] -> body ≠ [])
          ∧ match type_comment with
            | Some text =>
                ∃ argtypes r,
                  parse_func_type h text = OK (ast.FunctionType argtypes r)
                  ∧ Forall (fun e => returnsR (TypeConverter_visit h depth lineno e)) argtypes
                  ∧ returnsR (TypeConverter_visit h depth lineno r)
            | None =>
                match rets with
                | Some e => returnsR (TypeConverter_visit h depth lineno e)
                | None => True
                end
            end
      | ast.ClassDef _ _ keywords _ _ =>
          match find (fun k => match k with
                               | ast.Keyword arg _ => bool_decide (arg = Some "metaclass")
                               end) keywords with
          | Some (ast.Keyword _ value) => returnsR (stringify_name value)
          | None => True
          end
      | ast.Delete targets => targets ≠ []
      | ast.Assign _ _ (Some text) =>
          text = "" ∨ returnsR (parse_type_comment h depth text lineno)
      | ast.AugAssign _ op _ => op ≠ ast.MatMult
      | ast.AsyncFunctionDef _ _ _ _ _ _ | ast.AsyncFor _ _ _ _ | ast.AsyncWith _ _ => False
      | _ => True
      end
  | AModule _ | ASlice _ => True
  end.

(** The conversion of a node returns. *)
Definition converts (h : host) (depth : nat) (n : anode) : Prop :=
  match n with
  | AModule m => returnsR (convert h depth m)
  | AStmt s => returnsM (visit_stmt h depth s)
  | AExpr e => returnsR (visit_expr h depth e)
  | ASlice s => returnsR (visit_slice h depth s)
  end.

(** [{a: b, **c}]: the entry that unpacks a mapping has no key. *)
Definition demo_dict : ast.expr :=
  ast.At 1 (ast.Dict [Some (name_ 1 "a"); None] [name_ 1 "b"; name_ 1 "c"]).

(** * Properties *)

(** ** The two monads *)

Lemma bind_OK_inv {A C} (m : result A) (k : A -> result C) c :
  bind m k = OK c -> ∃ a, m = OK a ∧ k a = OK c.
Proof. destruct m as [a|e]; simpl; [eauto|done]. Qed.

Lemma mapM_cons {A B} (f : A -> result B) x l :
  mapM f (x :: l) = let* y := f x in let* ys := mapM f l in OK (y :: ys).
Proof. done. Qed.

Lemma zipM_cons {A B C} (f : A -> C -> result B) a l1 d l2 :
  zipM f (a :: l1) (d :: l2) = let* y := f a d in let* ys := zipM f l1 l2 in OK (y :: ys).
Proof. done. Qed.

Lemma mapMM_cons {A B} (f : A -> M B) x l :
  mapMM f (x :: l) = let! y := f x in let! ys := mapMM f l in retM (y :: ys).
Proof. done. Qed.



Lemma mapM_OK_Forall2 {A B} (f : A -> result B) l r :
  mapM f l = OK r -> Forall2 (fun x y => f x = OK y) l r.
Proof.
  revert r. induction l as [|x l IH]; intros r H.
  - injection H as <-. constructor.
  - rewrite mapM_cons in H.
    apply bind_OK_inv in H as (y & Hy & H).
    apply bind_OK_inv in H as (ys & Hys & H). injection H as <-.
    constructor; [done|]. by apply IH.
Qed.

Lemma mapM_length {A B} (f : A -> result B) l r :
  mapM f l = OK r -> length r = length l.
Proof. intros H. symmetry. eapply Forall2_length, mapM_OK_Forall2, H. Qed.


Lemma bindM_OK_inv {A B} (m : M A) (k : A -> M B) st r :
  bindM m k st = OK r -> ∃ a st1, m st = OK (a, st1) ∧ k a st1 = OK r.
Proof. unfold bindM. destruct (m st) as [[a st1]|e]; [eauto|done]. Qed.

Lemma liftR_OK_inv {A} (r : result A) st a st' :
  liftR r st = OK (a, st') -> r = OK a ∧ st' = st.
Proof. unfold liftR. destruct r; [|done]. by intros [= -> ->]. Qed.

Lemma retM_OK_inv {A} (a b : A) st st' :
  retM a st = OK (b, st') -> b = a ∧ st' = st.
Proof. by intros [= -> ->]. Qed.

(** ** Overload folding *)

Section overloads.

Lemma flush_app ret cur : flush ret cur = ret ++ flush [] cur.
Proof. destruct cur as [|? [|? ?]]; simpl; by rewrite ?app_nil_r. Qed.

(** The loop, started in any of its states, appends to [ret] what the
    recursion computes from the pending run. *)
Lemma fold_overload_step l ret cur name :
  (let '(r, c, _) := fold_left overload_step l (ret, cur, name) in flush r c)
  = ret ++ overloads_from cur name l.
Proof.
  revert ret cur name. induction l as [|s l IH]; intros ret cur name; simpl.
  - apply flush_app.
  - destruct (decorator_name s) as [n|] eqn:Hs.
    + case_bool_decide.
      * apply IH.
      * rewrite IH, (flush_app ret). by rewrite <- app_assoc.
    + rewrite IH, (flush_app ret). by rewrite <- !app_assoc.
Qed.

Lemma fix_function_overloads_from l :
  fix_function_overloads l = overloads_from [] None l.
Proof. unfold fix_function_overloads. apply (fold_overload_step l [] [] None). Qed.

Lemma Folded_flush cur n l r :
  cur ≠ [] -> Forall (fun d => decorator_name d = Some n) cur ->
  run_ends n l -> Folded l r -> Folded (cur ++ l) (flush [] cur ++ r).
Proof.
  intros Hne Hall Hend Hf. destruct cur as [|d [|d' cur]]; [done| |].
  - simpl. apply Folded_single with n; [by inversion Hall|done..].
  - change (flush [] (d :: d' :: cur)) with [new (OverloadedFuncDef (d :: d' :: cur))].
    simpl app at 2. apply Folded_run with n; try done. simpl; lia.
Qed.

(** The invariant of the loop: with no pending run, and with a pending
    run of definitions named [n]. *)
Lemma Folded_overloads_from l :
  Folded l (overloads_from [] None l) ∧
  ∀ cur n, cur ≠ [] -> Forall (fun d => decorator_name d = Some n) cur ->
           Folded (cur ++ l) (overloads_from cur (Some n) l).
Proof.
  induction l as [|s l [IH0 IH1]].
  - split; [constructor|]. intros cur n Hne Hall. simpl.
    rewrite <- (app_nil_r (flush [] cur)). apply Folded_flush with n; try done.
    constructor.
  - split.
    + simpl. destruct (decorator_name s) as [n|] eqn:Hs.
      * rewrite ?bool_decide_eq_false_2 by done. simpl.
        apply (IH1 [s] n); [done|]. by constructor.
      * simpl. by apply Folded_plain.
    + intros cur n Hne Hall. simpl. destruct (decorator_name s) as [n'|] eqn:Hs.
      * case_bool_decide as Hn.
        -- rewrite cons_middle, app_assoc.
           apply IH1; [by destruct cur|]. apply Forall_app; split; [done|].
           constructor; [congruence|constructor].
        -- apply Folded_flush with n; try done.
           ++ simpl. congruence.
           ++ apply (IH1 [s] n'); [done|]. by constructor.
      * apply Folded_flush with n; try done.
        -- simpl. congruence.
        -- by apply Folded_plain.
Qed.

(** A list splits in one way only into a maximal run and the rest. *)
Lemma run_prefix_unique n run1 : ∀ run2 l1 l2,
  run1 ++ l1 = run2 ++ l2 ->
  Forall (fun d => decorator_name d = Some n) run1 ->
  Forall (fun d => decorator_name d = Some n) run2 ->
  run_ends n l1 -> run_ends n l2 -> run1 = run2 ∧ l1 = l2.
Proof.
  induction run1 as [|d run1 IH]; intros run2 l1 l2 Heq H1 H2 E1 E2.
  - destruct run2 as [|d2 run2]; [done|]. simpl in Heq. subst l1.
    inversion H2; subst. simpl in E1. done.
  - destruct run2 as [|d2 run2].
    + simpl in Heq. subst l2. inversion H1; subst. simpl in E2. done.
    + simpl in Heq. injection Heq as -> Heq.
      inversion H1; inversion H2; subst.
      destruct (IH run2 l1 l2) as [-> ->]; done.
Qed.

(** The grouping that the specification describes is a function of the
    statement list. *)
Lemma Folded_functional l r1 :
  Folded l r1 -> ∀ r2, Folded l r2 -> r1 = r2.
Proof.
  induction 1 as [|s l r Hs _ IH|d n l r Hd He _ IH|run n l r Hlen Hall He _ IH];
    intros r2 H2.
  - by inversion H2 as [| | |run ? ? ? Hlen' ? ? ? Heq]; subst;
      [|destruct run; simpl in *; [lia|done]].
  - remember (s :: l) as L0 eqn:HL.
    destruct H2 as [|s' l' r' Hs' H'|d' n' l' r' Hd' He' H'
                   |run' n' l' r' Hlen' Hall' He' H'].
    + done.
    + injection HL as -> ->. f_equal. by apply IH.
    + injection HL as -> ->. congruence.
    + destruct run' as [|d' run']; [simpl in Hlen'; lia|].
      simpl in HL. injection HL as -> _. inversion Hall'; congruence.
  - remember (d :: l) as L0 eqn:HL.
    destruct H2 as [|s' l' r' Hs' H'|d' n' l' r' Hd' He' H'
                   |run' n' l' r' Hlen' Hall' He' H'].
    + done.
    + injection HL as -> ->. congruence.
    + injection HL as -> ->. f_equal. by apply IH.
    + destruct run' as [|d1 [|d2 run']]; [simpl in Hlen'; lia..|].
      simpl in HL. injection HL as -> <-.
      inversion Hall' as [|? ? Hd1 Hrest]; subst.
      inversion Hrest as [|? ? Hd2 _]; subst.
      simpl in He. congruence.
  - destruct run as [|d1 [|d2 run]]; [simpl in Hlen; lia..|].
    inversion Hall as [|? ? Hd1 Hrest]; subst.
    inversion Hrest as [|? ? Hd2 _]; subst.
    remember ((d1 :: d2 :: run) ++ l) as L0 eqn:HL.
    destruct H2 as [|s' l' r' Hs' H'|d' n' l' r' Hd' He' H'
                   |run' n' l' r' Hlen' Hall' He' H'].
    + by simpl in HL.
    + simpl in HL. injection HL as -> _. congruence.
    + simpl in HL. injection HL as -> ->. simpl in He'. congruence.
    + assert (n' = n) as ->.
      { destruct run' as [|d' run']; [simpl in Hlen'; lia|].
        simpl in HL. injection HL as -> _. inversion Hall'; congruence. }
      destruct (run_prefix_unique n run' (d1 :: d2 :: run) l' l) as [-> ->]; try done.
      f_equal. by apply IH.
Qed.

Lemma Folded_plain_sublist l r :
  Folded l r -> filter (fun s => decorator_name s = None) l `sublist_of` r.
Proof.
  induction 1 as [|s l r Hs _ IH|d n l r Hd He _ IH|run n l r Hlen Hall He _ IH].
  - done.
  - rewrite filter_cons_True by done. by apply sublist_skip.
  - rewrite filter_cons_False by congruence. by apply sublist_cons.
  - rewrite filter_app. replace (filter _ run) with (@nil Node).
    + by apply sublist_cons.
    + symmetry. clear -Hall. induction Hall as [|d run Hd _ IH']; [done|].
      rewrite filter_cons_False by congruence. done.
Qed.

End overloads.

(** C1.  The output of overload folding is the input in which every maximal
    run of two or more consecutive decorated definitions of one name has
    become one combined node holding the run in its order, a run of one and
    every other statement being kept; that description determines the
    output; and the statements that are not decorated definitions come out
    in their original order. *)
Theorem fix_function_overloads_folds (stmts : list Node) :
  Folded stmts (fix_function_overloads stmts)
  ∧ (∀ r, Folded stmts r -> r = fix_function_overloads stmts)
  ∧ filter (fun s => decorator_name s = None) stmts
      `sublist_of` fix_function_overloads stmts.
Proof.
  assert (Folded stmts (fix_function_overloads stmts)) as H.
  { rewrite fix_function_overloads_from. apply Folded_overloads_from. }
  split; [done|]. split.
  - intros r Hr. symmetry. by apply (Folded_functional stmts).
  - by apply Folded_plain_sublist.
Qed.

Lemma fix_function_overloads_folds_witness :
  Folded demo_stmts
    [new (OverloadedFuncDef [demo_decorator "f" 1; demo_decorator "f" 3]);
     demo_pass; demo_decorator "g" 6]
  ∧ ∀ r, Folded demo_stmts r -> r = fix_function_overloads demo_stmts.
Proof.
  split.
  - exact (proj1 (fix_function_overloads_folds demo_stmts)).
  - exact (proj1 (proj2 (fix_function_overloads_folds demo_stmts))).
Defined.

(** ** The argument transform *)

Section arguments.
Variables (h : host) (depth : nat) (visit : ast.expr -> result Node) (line : Z).




Lemma pyzip_length {A B} (a : list A) (b : list B) :
  length (pyzip a b) = min (length a) (length b).
Proof. revert b. induction a as [|x a IH]; intros [|y b]; simpl; auto. Qed.





End arguments.



(** ** Boolean operators *)

Section boolean_operators.

Lemma group_right_nested op v1 v2 rest :
  group op (v1 :: v2 :: rest) = OK (right_nested op v1 (v2 :: rest)).
Proof.
  revert v1 v2. induction rest as [|v3 rest IH]; intros v1 v2; [done|].
  change (group op (v1 :: v2 :: v3 :: rest))
    with (let* r := group op (v2 :: v3 :: rest) in OK (new (OpExpr op v1 r))).
  by rewrite IH.
Qed.

Lemma left_spine_right_nested op v1 v2 rest :
  left_spine (it (right_nested op v1 (v2 :: rest))) = S (left_spine (it v1)).
Proof. done. Qed.

Lemma left_spine_left_nested op rest : ∀ v1,
  left_spine (it (left_nested op v1 rest)) = (left_spine (it v1) + length rest)%nat.
Proof.
  induction rest as [|v rest IH]; intros v1; simpl; [lia|].
  change (left_nested op v1 (v :: rest))
    with (left_nested op (new (OpExpr op v1 v)) rest).
  rewrite IH. simpl. lia.
Qed.

End boolean_operators.

(** C3.  A boolean operation on two or more operands converts to the
    converted operands nested to the right, [Op(v1, Op(v2, ...))], under the
    line of the operation; for three operands that is [Op(a, Op(b, c))];
    and from three operands on it differs from the nesting to the left. *)
Theorem visit_BoolOp_right_fold h depth lineno op e1 e2 es :
  let visit := visit_expr h depth in
  let name := boolop_name op in
  visit (ast.At lineno (ast.BoolOp op (e1 :: e2 :: es)))
    = (let* v1 := visit e1 in
       let* vs := mapM visit (e2 :: es) in
       OK (set_line (right_nested name v1 vs) lineno))
  ∧ (∀ a b c, right_nested name a [b; c]
              = new (OpExpr name a (new (OpExpr name b c))))
  ∧ (∀ v1 v2 v3 vs,
       set_line (right_nested name v1 (v2 :: v3 :: vs)) lineno
       ≠ set_line (left_nested name v1 (v2 :: v3 :: vs)) lineno).
Proof.
  intros visit name. split; [|split].
  - change (visit (ast.At lineno (ast.BoolOp op (e1 :: e2 :: es))))
      with (with_line (visit_BoolOp visit op (e1 :: e2 :: es)) lineno).
    unfold with_line, visit_BoolOp, visit_list.
    rewrite (mapM_cons visit e1).
    remember (mapM visit (e2 :: es)) as r eqn:E. symmetry in E.
    simpl negb. cbv iota.
    destruct (visit e1) as [v1|]; [|done].
    destruct r as [vs|]; [|done].
    apply mapM_length in E. destruct vs as [|v2 vs]; [done|].
    cbn [bind]. fold name. rewrite group_right_nested. done.
  - done.
  - intros v1 v2 v3 vs H.
    apply (f_equal (fun n => left_spine (it n))) in H.
    change (left_spine (it (right_nested name v1 (v2 :: v3 :: vs)))
            = left_spine (it (left_nested name v1 (v2 :: v3 :: vs)))) in H.
    rewrite left_spine_right_nested, left_spine_left_nested in H. simpl in H. lia.
Qed.

Lemma visit_BoolOp_right_fold_witness :
  visit_expr demo_host 0
    (ast.At 1 (ast.BoolOp ast.And [name_ 1 "a"; name_ 1 "b"; name_ 1 "c"]))
  = OK (L (Some 1)
          (OpExpr "and" (L (Some 1) (NameExpr "a"))
             (L None (OpExpr "and" (L (Some 1) (NameExpr "b"))
                                   (L (Some 1) (NameExpr "c"))))))
  ∧ L (Some 1)
      (OpExpr "and" (L (Some 1) (NameExpr "a"))
         (L None (OpExpr "and" (L (Some 1) (NameExpr "b")) (L (Some 1) (NameExpr "c")))))
    ≠ L (Some 1)
        (OpExpr "and"
           (L None (OpExpr "and" (L (Some 1) (NameExpr "a")) (L (Some 1) (NameExpr "b"))))
           (L (Some 1) (NameExpr "c"))).
Proof.
  destruct (visit_BoolOp_right_fold demo_host 0 1 ast.And
              (name_ 1 "a") (name_ 1 "b") [name_ 1 "c"]) as (Heq & _ & Hne).
  split.
  - exact Heq.
  - exact (Hne (L (Some 1) (NameExpr "a")) (L (Some 1) (NameExpr "b"))
               (L (Some 1) (NameExpr "c")) []).
Defined.

(** ** Line numbers of types and of name references *)

Lemma lines_ok_all line ts :
  (fix all ts := match ts with [] => True | x :: r => lines_ok line x ∧ all r end) ts
  ↔ Forall (lines_ok line) ts.
Proof.
  induction ts as [|x r IH]; [by split|].
  rewrite Forall_cons. by rewrite <- IH.
Qed.

Lemma type_size_elem x elts :
  x ∈ elts ->
  (type_size x
   <= (fix sum l := match l with [] => 0 | x :: r => type_size x + sum r end) elts)%nat.
Proof.
  induction 1 as [x l|x y l _ IH]; [lia|]. etransitivity; [exact IH|]. lia.
Qed.

Lemma mapM_Forall {A B} (f : A -> result B) (P : B -> Prop) l r :
  mapM f l = OK r -> (∀ x y, x ∈ l -> f x = OK y -> P y) -> Forall P r.
Proof.
  intros H HP. apply mapM_OK_Forall2 in H.
  induction H as [|x y l r Hxy _ IH]; constructor.
  - eapply HP; [apply list_elem_of_here|done].
  - apply IH. intros x' y' Hin. apply HP. by apply list_elem_of_further.
Qed.

Section type_lines.
Variables (h : host) (line : Z) (ptc : string -> Z -> result Type_).
Hypothesis ptc_lines : ∀ s t, ptc s line = OK t -> lines_ok line t.

Lemma visit_with_lines n : ∀ e t,
  (type_size e <= n)%nat ->
  TypeConverter.visit_with h ptc line e = OK t -> lines_ok line t.
Proof.
  induction n as [|n IH]; intros [l d] t Hsize H.
  { destruct d; simpl in Hsize; lia. }
  destruct d; simpl in H; try done;
    unfold TypeConverter.visit_Str, TypeConverter.visit_NameConstant,
      TypeConverter.visit_Ellipsis, TypeConverter.visit_Attribute,
      TypeConverter.visit_Subscript, TypeConverter.visit_Name,
      TypeConverter.visit_List, TypeConverter.visit_Tuple,
      TypeConverter.visit_list in H.
  - (* Str *) by eapply ptc_lines.
  - (* NameConstant *) injection H as <-. simpl. split; [|done]. right. eauto.
  - (* Ellipsis *) by injection H as <-.
  - (* Attribute *)
    apply bind_OK_inv in H as (v & Hv & H).
    destruct v as [|name [|] lv| | | |]; try done.
    injection H as <-. simpl. split; [by left|done].
  - (* Subscript *)
    destruct slice as [| |sv]; try done.
    apply bind_OK_inv in H as (v & Hv & H).
    destruct v as [|name [|] lv| | | |]; try done.
    apply bind_OK_inv in H as (params & Hp & H). injection H as <-.
    simpl. split; [by left|]. apply lines_ok_all.
    simpl in Hsize.
    destruct sv as [lsv dsv].
    assert (∀ x y, x = ast.At lsv dsv ->
              TypeConverter.visit_with h ptc line x = OK y -> lines_ok line y)
      as Hone.
    { intros x y -> Hy. eapply IH; [|done]. clear -Hsize. simpl in *. lia. }
    destruct dsv;
      try (apply bind_OK_inv in Hp as (p & Hp & Hq); injection Hq as <-;
           constructor; [by eapply Hone|constructor]).
    eapply mapM_Forall; [exact Hp|]. intros x y Hin Hy.
    eapply IH; [|done]. apply type_size_elem in Hin. simpl in Hsize. lia.
  - (* Name *) injection H as <-. simpl. split; [by left|done].
  - (* List *)
    apply bind_OK_inv in H as (items & Hi & H). injection H as <-.
    simpl. split; [done|]. apply lines_ok_all.
    eapply mapM_Forall; [exact Hi|]. intros x y Hin Hy.
    eapply IH; [|done]. apply type_size_elem in Hin. simpl in Hsize. lia.
  - (* Tuple *)
    apply bind_OK_inv in H as (items & Hi & H). injection H as <-.
    simpl. split; [done|]. apply lines_ok_all.
    eapply mapM_Forall; [exact Hi|]. intros x y Hin Hy.
    eapply IH; [|done]. apply type_size_elem in Hin. simpl in Hsize. lia.
Qed.
End type_lines.

Lemma parse_type_comment_lines h line depth : ∀ s t,
  parse_type_comment h depth s line = OK t -> lines_ok line t.
Proof.
  induction depth as [|depth IH]; intros s t H; [done|].
  simpl in H. apply bind_OK_inv in H as (typ & _ & H).
  eapply visit_with_lines; [exact IH|reflexivity|exact H].
Qed.

(** Apart from the type of a singleton constant, every type object that
    the converter builds carries the line of the converter. *)
Lemma TypeConverter_visit_lines h depth line e t :
  TypeConverter_visit h depth line e = OK t -> lines_ok line t.
Proof.
  intros H. eapply visit_with_lines; [|reflexivity|exact H].
  apply parse_type_comment_lines.
Qed.

(** A method under [with_line] returns a node with the line of its source
    node: every expression but a singleton constant, and every statement. *)
Lemma with_line_OK {A} (r : result (lined A)) lineno node :
  with_line r lineno = OK node -> line node = Some lineno.
Proof.
  unfold with_line. intros H. apply bind_OK_inv in H as (n & _ & H).
  by injection H as <-.
Qed.

Lemma with_lineM_OK {A} (m : M (lined A)) lineno st node st' :
  with_lineM m lineno st = OK (node, st') -> line node = Some lineno.
Proof.
  unfold with_lineM. intros H. apply bindM_OK_inv in H as (n & s & _ & H).
  by apply retM_OK_inv in H as [-> _].
Qed.

Lemma visit_expr_line h depth lineno d node :
  visit_expr h depth (ast.At lineno d) = OK node ->
  (∀ value, d ≠ ast.NameConstant value) ->
  line node = Some lineno.
Proof.
  intros H Hd. destruct d; cbn [visit_expr] in H;
    try done; try (by eapply with_line_OK).
  exfalso. by apply (Hd value).
Qed.

Lemma visit_stmt_line h depth lineno d st node st' :
  visit_stmt h depth (ast.SAt lineno d) st = OK (node, st') ->
  line node = Some lineno.
Proof.
  intros H. destruct d; cbn [visit_stmt] in H;
    try done; by eapply with_lineM_OK.
Qed.

(** C4.  The type built for a singleton constant carries no line: the
    constructor call of [visit_NameConstant] does not pass the line of the
    converter, whatever that line is, where the call of [visit_Name] for an
    identifier does. *)
Theorem TypeConverter_NameConstant_line h depth line lineno value id :
  TypeConverter_visit h depth line (ast.At lineno (ast.NameConstant value))
    = OK (UnboundType (str_singleton value) [] None)
  ∧ TypeConverter_visit h depth line (ast.At lineno (ast.Name id))
    = OK (UnboundType id [] (Some line)).
Proof. done. Qed.

(** C9.  The name reference emitted for a singleton constant is not stamped
    with the line of its source node: [visit_NameConstant] is not under
    [with_line], where [visit_Name] for an identifier is. *)
Theorem visit_NameConstant_line h depth lineno value id :
  visit_expr h depth (ast.At lineno (ast.NameConstant value))
    = OK (L None (NameExpr (str_singleton value)))
  ∧ visit_expr h depth (ast.At lineno (ast.Name id))
    = OK (L (Some lineno) (NameExpr id)).
Proof. done. Qed.

(** ** Statements *)

(** C10.  An [assert] converts to the assert node of its converted test,
    under its line; the message takes no part in the result. *)
Theorem visit_Assert_discards_msg h depth lineno test msg st :
  visit_stmt h depth (ast.SAt lineno (ast.Assert test msg)) st
  = match visit_expr h depth test with
    | OK e => OK (L (Some lineno) (AssertStmt e), st)
    | Raise x => Raise x
    end.
Proof.
  change (visit_stmt h depth (ast.SAt lineno (ast.Assert test msg)) st)
    with (with_lineM (visit_Assert h depth test msg) lineno st).
  unfold with_lineM, visit_Assert, visit_e, bindM, liftR, retM.
  by destruct (visit_expr h depth test).
Qed.

(** A class definition leaves the flag cleared, whatever it was before. *)
Lemma visit_ClassDef_clears_in_class h depth lineno name bases keywords body decs
    st node st' :
  visit_stmt h depth (ast.SAt lineno (ast.ClassDef name bases keywords body decs)) st
    = OK (node, st') ->
  in_class st' = false.
Proof.
  intros H.
  change (with_lineM (visit_ClassDef h depth (visit_stmt h depth) name bases keywords
                        body decs) lineno st = OK (node, st')) in H.
  unfold with_lineM, visit_ClassDef in H.
  apply bindM_OK_inv in H as (n0 & s0 & H & Hret).
  apply retM_OK_inv in Hret as [_ ->].
  repeat (apply bindM_OK_inv in H as (? & ? & ? & H)).
  apply retM_OK_inv in H as [_ ->].
  match goal with Hset : set_in_class false _ = OK _ |- _ => by injection Hset as _ <- end.
Qed.

(** C5.  The flag is not restored.  A class converted while the flag is set
    leaves it cleared; so the method that follows a nested class is
    converted with the flag cleared and gets no implicit first type, where
    the same method ahead of the nested class gets it. *)
Theorem in_class_not_restored :
  (∃ node, visit_stmt demo_host 1 (inner_class 2) (Self true [])
           = OK (node, Self false []))
  ∧ (∃ node, visit_stmt demo_host 1 outer_class (Self false [])
             = OK (node, Self false [])
             ∧ declared_type <$> class_defs node
               = [None;
                  Some (CallableType [UnboundType "int" [] (Some 4)]
                                     [ARG_POS; ARG_POS] ["self"; "x"]
                                     (UnboundType "None" [] None))])
  ∧ (∃ node, visit_stmt demo_host 1 outer_class' (Self false [])
             = OK (node, Self false [])
             ∧ declared_type <$> class_defs node
               = [Some (CallableType [AnyType; UnboundType "int" [] (Some 2)]
                                     [ARG_POS; ARG_POS] ["self"; "x"]
                                     (UnboundType "None" [] None));
                  None]).
Proof.
  split; [|split].
  - eexists. lazy. reflexivity.
  - eexists. split; [lazy; reflexivity|]. reflexivity.
  - eexists. split; [lazy; reflexivity|]. reflexivity.
Qed.

(** C6 as stated fails: inside a class, a comment that lists two types
    fewer than there are parameters (none, for two parameters) still gets
    the implicit first type. *)
Lemma implicit_self_two_fewer :
  parse_func_type demo_host "() -> None"
    = OK (ast.FunctionType [] (ast.At 1 (ast.NameConstant ast.PyNone)))
  ∧ (∃ node st', visit_stmt demo_host 1 two_fewer (Self true []) = OK (node, st')
                 ∧ declared_type node
                   = Some (CallableType [AnyType] [ARG_POS; ARG_POS] ["a"; "b"]
                                        (UnboundType "None" [] None)))
  ∧ (length (@nil ast.expr) + 1 ≠ length ["a"; "b"])%nat.
Proof.
  split; [done|]. split; [|simpl; lia].
  eexists _, _. split; [lazy; reflexivity|]. reflexivity.
Qed.

(** C6, amended.  When the signature of a function definition comes from a
    type comment, the implicit first type is put in front of the listed
    argument types exactly when the conversion is inside a class body and
    the comment lists fewer types than the function has parameters. *)
Theorem implicit_self_type h depth lineno name n_args body decs returns tc st node st' :
  visit_stmt h depth
    (ast.SAt lineno (ast.FunctionDef name n_args body decs returns (Some tc))) st
    = OK (node, st') ->
  ∃ args argtypes rets ts rt,
    transform_args h depth (visit_expr h depth) n_args lineno = OK args
    ∧ parse_func_type h tc = OK (ast.FunctionType argtypes rets)
    ∧ TypeConverter_visit_list h depth lineno argtypes = OK ts
    ∧ TypeConverter_visit h depth lineno rets = OK rt
    ∧ declared_type node
      = Some (CallableType
                (if in_class st && (length ts <? length args)%nat
                 then AnyType :: ts else ts)
                (map kind args) (map (fun a => Var_name (variable a)) args) rt).
Proof.
  intros H.
  change (with_lineM (visit_FunctionDef h depth (visit_stmt h depth) lineno name n_args
                        body decs returns (Some tc)) lineno st = OK (node, st')) in H.
  unfold with_lineM, visit_FunctionDef in H.
  apply bindM_OK_inv in H as (n0 & st0 & H & Hret).
  apply retM_OK_inv in Hret as [-> ->].
  apply bindM_OK_inv in H as (args & s1 & Hargs & H).
  apply liftR_OK_inv in Hargs as [Hargs ->].
  apply bindM_OK_inv in H as ([arg_types return_type] & s2 & Hty & H).
  apply bindM_OK_inv in Hty as ([argtypes rets] & s3 & Hp & Hty).
  apply liftR_OK_inv in Hp as [Hp ->].
  apply bindM_OK_inv in Hty as (ts & s4 & Hts & Hty).
  apply liftR_OK_inv in Hts as [Hts ->].
  apply bindM_OK_inv in Hty as (rt & s5 & Hrt & Hty).
  apply liftR_OK_inv in Hrt as [Hrt ->].
  apply bindM_OK_inv in Hty as (in_cls & s6 & Hcls & Hty).
  injection Hcls as <- <-.
  apply retM_OK_inv in Hty as [[= -> ->] ->].
  exists args, argtypes, rets, ts, rt. repeat (split; [done|]).
  apply bindM_OK_inv in H as (blk & s7 & _ & H).
  rewrite orb_true_r in H. rewrite length_map in H.
  assert (∀ l, map or_AnyType (map Some l) = l) as Hmap
    by (intros l; induction l; simpl; congruence).
  destruct decs as [|d0 ds].
  - apply retM_OK_inv in H as [-> _]. unfold declared_type. simpl.
    destruct (in_class st && _); simpl; by rewrite Hmap.
  - destruct blk as [b|]; [|done].
    apply bindM_OK_inv in H as (decorators & s8 & _ & H).
    apply retM_OK_inv in H as [-> _]. unfold declared_type. simpl.
    destruct (in_class st && _); simpl; by rewrite Hmap.
Qed.

Lemma implicit_self_type_witness :
  ∃ node,
    visit_stmt demo_host 1 (method_f 2) (Self true []) = OK (node, Self true [])
    ∧ declared_type node
      = Some (CallableType [AnyType; UnboundType "int" [] (Some 2)]
                           [ARG_POS; ARG_POS] ["self"; "x"]
                           (UnboundType "None" [] None)).
Proof.
  destruct (implicit_self_type demo_host 1 2 "f" (args_of ["self"; "x"])
              [ast.SAt (2 + 1) ast.Pass] [] None "(int) -> None"
              (Self true []) _ _ eq_refl)
    as (args & argtypes & rets & ts & rt & Ha & Hp & Hts & Hrt & Hd).
  lazy in Ha. injection Ha as <-.
  lazy in Hp. injection Hp as <- <-.
  lazy in Hts. injection Hts as <-.
  lazy in Hrt. injection Hrt as <-.
  eexists. split; [lazy; reflexivity|]. lazy in Hd. lazy. exact Hd.
Defined.



(** ** Internal failures *)































(** * Further properties of the module *)

(** ** The function [find] and the operator tables *)

(** X1.  [find] returns the first item of the sequence that satisfies the
    test, whatever follows it, and [None] exactly when no item satisfies
    it. *)
Theorem find_first {T} (f : T -> bool) (seq : list T) :
  (∀ x, find f seq = Some x
        ↔ ∃ pre post, seq = pre ++ x :: post ∧ f x = true
                      ∧ Forall (fun y => f y = false) pre)
  ∧ (find f seq = None ↔ Forall (fun y => f y = false) seq).
Proof.
  induction seq as [|item rest [IHs IHn]]; simpl.
  - split.
    + intros x. split; [done|]. intros (pre & post & E & _). by destruct pre.
    + done.
  - destruct (f item) eqn:Hf.
    + split.
      * intros x. split.
        -- intros [= <-]. exists [], rest. done.
        -- intros (pre & post & E & Hx & Hpre).
           destruct pre as [|y pre]; simpl in E.
           ++ by injection E as ->.
           ++ injection E as -> _. apply Forall_cons in Hpre as [Hy _]. congruence.
      * split; [done|]. intros H. apply Forall_cons in H as [Hy _]. congruence.
    + split.
      * intros x. rewrite IHs. split.
        -- intros (pre & post & -> & Hx & Hpre). exists (item :: pre), post.
           split; [done|]. split; [done|]. by constructor.
        -- intros (pre & post & E & Hx & Hpre).
           destruct pre as [|y pre]; simpl in E.
           ++ injection E as -> _. congruence.
           ++ injection E as -> ->. apply Forall_cons in Hpre as [_ Hpre].
              by exists pre, post.
      * rewrite IHn. split; [by constructor|]. intros H. by apply Forall_cons in H as [_ H].
Qed.

(** X2.  No two binary operators that [from_operator] accepts get the same
    name, and no two comparison operators get the same name from
    [from_comp_operator]: the operator of the source can be told from the
    name in the converted node. *)
Theorem operator_names_distinct :
  (∀ a b s, from_operator a = OK s -> from_operator b = OK s -> a = b)
  ∧ (∀ a b s, from_comp_operator a = OK s -> from_comp_operator b = OK s -> a = b).
Proof.
  split.
  - intros a b s Ha Hb. rewrite <- Hb in Ha. clear Hb.
    destruct a, b; try reflexivity; vm_compute in Ha; discriminate.
  - intros a b s Ha Hb. rewrite <- Hb in Ha. clear Hb.
    destruct a, b; try reflexivity; vm_compute in Ha; discriminate.
Qed.

(** ** More on overload folding *)

Lemma Folded_run_ends n l r : Folded l r -> run_ends n l -> run_ends n r.
Proof.
  destruct 1 as [|s l r Hs _|d m l r Hd He _|run m l r Hlen Hall He _]; try done.
Qed.

Lemma Folded_fixed l r : Folded l r -> Folded r r.
Proof.
  induction 1 as [|s l r Hs H IH|d n l r Hd He H IH|run n l r Hlen Hall He H IH].
  - constructor.
  - by apply Folded_plain.
  - apply Folded_single with n; [done| |done]. by apply (Folded_run_ends n l).
  - by apply Folded_plain.
Qed.

Lemma Folded_length l r : Folded l r -> (length r <= length l)%nat.
Proof.
  induction 1 as [|s l r Hs H IH|d n l r Hd He H IH|run n l r Hlen Hall He H IH];
    simpl; try lia.
  rewrite length_app. lia.
Qed.

Lemma Folded_items l r : Folded l r -> r ≫= overload_items = l ≫= overload_items.
Proof.
  induction 1 as [|s l r Hs H IH|d n l r Hd He H IH|run n l r Hlen Hall He H IH].
  - done.
  - by rewrite !bind_cons, IH.
  - by rewrite !bind_cons, IH.
  - rewrite bind_app, bind_cons, IH. f_equal.
    clear -Hall. induction Hall as [|d run Hd _ IH']; [done|].
    rewrite bind_cons, <- IH'. unfold overload_items, decorator_name in *.
    by destruct (it d).
Qed.

Lemma items_not_overloaded l :
  Forall (fun s => is_overloaded s = false) l -> l ≫= overload_items = l.
Proof.
  induction 1 as [|s l Hs _ IH]; [done|]. rewrite bind_cons, IH.
  unfold overload_items, is_overloaded in *. by destruct (it s).
Qed.

Lemma fix_function_overloads_Folded stmts : Folded stmts (fix_function_overloads stmts).
Proof. rewrite fix_function_overloads_from. apply Folded_overloads_from. Qed.

(** X3.  Overload folding changes nothing when it is run on its own output;
    its output is never longer than its input, and is empty only for an
    empty input. *)
Theorem fix_function_overloads_idempotent (stmts : list Node) :
  fix_function_overloads (fix_function_overloads stmts) = fix_function_overloads stmts
  ∧ (length (fix_function_overloads stmts) <= length stmts)%nat
  ∧ (fix_function_overloads stmts = [] ↔ stmts = []).
Proof.
  pose proof (fix_function_overloads_Folded stmts) as H.
  split; [|split].
  - symmetry. apply (Folded_functional (fix_function_overloads stmts)).
    + by apply (Folded_fixed stmts).
    + apply fix_function_overloads_Folded.
  - by apply Folded_length.
  - split.
    + intros E. rewrite E in H. by inversion H.
    + by intros ->.
Qed.

(** X4.  Overload folding loses and reorders nothing: for a list without
    combined nodes, which is what the conversion of statements gives,
    putting the items of each combined node of the output in its place gives
    the input back. *)
Theorem fix_function_overloads_keeps_statements (stmts : list Node) :
  Forall (fun s => is_overloaded s = false) stmts ->
  fix_function_overloads stmts ≫= overload_items = stmts.
Proof.
  intros H. rewrite (Folded_items stmts) by apply fix_function_overloads_Folded.
  by apply items_not_overloaded.
Qed.

Lemma fix_function_overloads_keeps_statements_witness :
  fix_function_overloads demo_stmts ≫= overload_items = demo_stmts.
Proof.
  apply fix_function_overloads_keeps_statements.
  repeat constructor.
Defined.

(** ** Strings *)

Lemma append_String c p s : String c p +:+ s = String c (p +:+ s).
Proof. done. Qed.

Lemma substring_all s : String.substring 0 (String.length s) s = s.
Proof. induction s as [|c s IH]; simpl; [done|]. by rewrite IH. Qed.

Lemma substring_skip p s n :
  String.substring (String.length p) n (p +:+ s) = String.substring 0 n s.
Proof. induction p as [|c p IH]; [done|]. rewrite append_String. apply IH. Qed.

Lemma substring_split s a :
  (a <= String.length s)%nat ->
  s = String.substring 0 a s +:+ String.substring a (String.length s - a) s.
Proof.
  revert a. induction s as [|c s IH]; intros a Ha; simpl in *.
  - by destruct a.
  - destruct a as [|a]; simpl.
    + by rewrite substring_all.
    + rewrite append_String. f_equal. apply IH. lia.
Qed.

Lemma length_append p s :
  String.length (p +:+ s) = (String.length p + String.length s)%nat.
Proof.
  induction p as [|c p IH]; [done|]. rewrite append_String. simpl. by rewrite IH.
Qed.

Lemma endswith_spec s suffix : endswith s suffix = true ↔ ∃ p, s = p +:+ suffix.
Proof.
  unfold endswith. split.
  - intros H. apply andb_prop in H as [Hle Heq].
    apply Nat.leb_le in Hle. apply String.eqb_eq in Heq.
    exists (String.substring 0 (String.length s - String.length suffix) s).
    pose proof (substring_split s (String.length s - String.length suffix)) as Hs.
    replace (String.length s - (String.length s - String.length suffix))%nat
      with (String.length suffix) in Hs by lia.
    rewrite Heq in Hs. apply Hs. lia.
  - intros [p ->]. rewrite length_append. apply andb_true_intro. split.
    + apply Nat.leb_le. lia.
    + apply String.eqb_eq.
      replace (String.length p + String.length suffix - String.length suffix)%nat
        with (String.length p) by lia.
      by rewrite substring_skip, substring_all.
Qed.

(** ** The entry point [parse] *)

(** X5.  When the parser and the conversion succeed, [parse] returns the
    converted tree with [path] set to the file name it was given and
    [is_stub] set to whether that name ends in [.pyi], and leaves the
    diagnostics sink alone. *)
Theorem parse_path_and_stub h depth source fnam errors module tree :
  parse_exec h source fnam = OK module ->
  convert h depth module = OK tree ->
  ∃ stub,
    parse h depth source fnam errors
      = (OK (MypyFile (defs tree) (tree_imports tree) (is_bom tree) (ignored_lines tree)
                      (weak_opts tree) (Some fnam) (Some stub)), errors)
    ∧ (stub = true ↔ ∃ stem, fnam = Some (stem +:+ ".pyi")).
Proof.
  intros Hp Hc. unfold parse. rewrite Hp, Hc. eexists. split; [reflexivity|].
  rewrite andb_true_iff, endswith_spec. split.
  - intros [Ht [stem Hs]]. destruct fnam as [s|]; [|done]. simpl in Hs.
    exists stem. by f_equal.
  - intros [stem ->]. split; [|by exists stem].
    simpl. by destruct stem.
Qed.

Lemma parse_path_and_stub_witness :
  ∃ stub, parse demo_host 0 "assert x, a @ b" (Some "m.pyi") None
          = (OK (MypyFile [L (Some 1) (AssertStmt (L (Some 1) (NameExpr "x")))] [] false ∅ ∅
                          (Some (Some "m.pyi")) (Some stub)), None)
          ∧ (stub = true ↔ ∃ stem, Some "m.pyi" = Some (stem +:+ ".pyi")).
Proof.
  exact (parse_path_and_stub demo_host 0 "assert x, a @ b" (Some "m.pyi") None
           demo_assert_module _ eq_refl eq_refl).
Defined.

(** X6.  When the parser raises a syntax error, [parse] with a sink returns an
    empty file on which neither [path] nor [is_stub] was assigned, after
    reporting the error under the file name ([<input>] without one); without
    a sink it raises the syntax error again. *)
Theorem parse_syntax_error h depth source fnam lineno msg :
  parse_exec h source fnam = Raise (SyntaxError lineno msg) ->
  (∀ sink, parse h depth source fnam (Some sink)
           = (OK (MypyFile [] [] false ∅ ∅ None None),
              Some (sink ++ [set_file (default "<input>" fnam); report lineno msg])))
  ∧ parse h depth source fnam None = (Raise (SyntaxError lineno msg), None).
Proof. intros Hp. unfold parse. rewrite Hp. done. Qed.

Lemma parse_syntax_error_witness :
  parse demo_host 0 "def" (Some "m.pyi") (Some [])
    = (OK (MypyFile [] [] false ∅ ∅ None None),
       Some [set_file "m.pyi"; report 1 "invalid syntax"])
  ∧ parse demo_host 0 "def" None None = (Raise (SyntaxError 1 "invalid syntax"), None).
Proof.
  split.
  - exact (proj1 (parse_syntax_error demo_host 0 "def" (Some "m.pyi") 1 "invalid syntax"
                    eq_refl) []).
  - exact (proj2 (parse_syntax_error demo_host 0 "def" None 1 "invalid syntax" eq_refl)).
Defined.

(** ** Qualified names *)

(** Induction on the value under a chain of attribute accesses. *)
Lemma attribute_chain_ind (P : ast.expr -> Prop) :
  (∀ l value attr, P value -> P (ast.At l (ast.Attribute value attr))) ->
  (∀ l d, (∀ value attr, d ≠ ast.Attribute value attr) -> P (ast.At l d)) ->
  ∀ e, P e.
Proof.
  intros Hattr Hbase. fix IH 1. intros [l d].
  destruct d; try (apply Hbase; discriminate).
  apply Hattr, IH.
Qed.

(** X7.  [stringify_name] turns the dotted name [first.a1.a2...] into that
    text; on attribute accesses stacked on anything that is neither a name
    nor an attribute access it raises an assertion error that names the
    class of that innermost node. *)
Theorem stringify_name_dotted (l : Z) (attrs : list string) :
  (∀ first, stringify_name (dotted_name l first attrs) = OK (dotted_text first attrs))
  ∧ (∀ lb d, (∀ id, d ≠ ast.Name id) -> (∀ value attr, d ≠ ast.Attribute value attr) ->
       stringify_name (attributes_on l (ast.At lb d) attrs)
       = Raise (AssertionError ("can't stringify " +:+ expr_class d))).
Proof.
  split.
  - intros first. unfold dotted_name, dotted_text.
    induction attrs as [|a attrs IH] using rev_ind; [done|].
    rewrite !fold_left_app. simpl. by rewrite IH.
  - intros lb d Hn Ha. unfold attributes_on.
    induction attrs as [|a attrs IH] using rev_ind.
    + simpl. destruct d; try done; [by destruct (Ha value attr)|by destruct (Hn id)].
    + rewrite fold_left_app. simpl. by rewrite IH.
Qed.

Lemma stringify_name_dotted_witness :
  stringify_name (ast.At 1 (ast.Attribute (ast.At 1 (ast.Attribute (name_ 1 "a") "b")) "c"))
    = OK "a.b.c"
  ∧ stringify_name (ast.At 1 (ast.Attribute (ast.At 2 (ast.Str "a")) "b"))
    = Raise (AssertionError "can't stringify Str").
Proof.
  split.
  - exact (proj1 (stringify_name_dotted 1 ["b"; "c"]) "a").
  - refine (proj2 (stringify_name_dotted 1 ["b"]) 2 (ast.Str "a") _ _); discriminate.
Defined.

(** X8.  The type converter and [stringify_name] agree on dotted names: an
    expression that [stringify_name] accepts converts to the unbound type of
    that very text, without arguments, under the converter's line. *)
Theorem TypeConverter_qualified_name h depth line n s :
  stringify_name n = OK s ->
  TypeConverter_visit h depth line n = OK (UnboundType s [] (Some line)).
Proof.
  revert s. induction n as [l value attr IH|l d Hd] using attribute_chain_ind; intros s H.
  - simpl in H. apply bind_OK_inv in H as (v & Hv & H). injection H as <-.
    specialize (IH v Hv).
    change (TypeConverter_visit h depth line (ast.At l (ast.Attribute value attr)))
      with (TypeConverter.visit_Attribute line (TypeConverter_visit h depth line) value attr).
    unfold TypeConverter.visit_Attribute. by rewrite IH.
  - destruct d; try done; [by destruct (Hd value attr)|by injection H as <-].
Qed.

Lemma TypeConverter_qualified_name_witness :
  TypeConverter_visit demo_host 0 7 demo_metaclass
    = OK (UnboundType "abc.ABCMeta" [] (Some 7)).
Proof.
  exact (TypeConverter_qualified_name demo_host 0 7 demo_metaclass "abc.ABCMeta" eq_refl).
Defined.

(** ** What the type converter rejects *)

(** X9.  What the type converter refuses: a node of a class without a method
    raises a runtime error naming the class; a subscript whose slice is not
    a plain index raises an assertion error; so does a subscript or an
    attribute access whose value converts to anything but an unbound type
    without arguments, such as a subscript of a subscript. *)
Theorem TypeConverter_rejects h depth line lineno :
  (∀ d, has_type_method d = false ->
        TypeConverter_visit h depth line (ast.At lineno d)
        = Raise (RuntimeError ("Type node not implemented: " +:+ expr_class d)))
  ∧ (∀ value sl, (∀ v, sl ≠ ast.Index v) ->
        TypeConverter_visit h depth line (ast.At lineno (ast.Subscript value sl))
        = Raise (AssertionError ""))
  ∧ (∀ value v t,
        TypeConverter_visit h depth line value = OK t ->
        (∀ name l, t ≠ UnboundType name [] l) ->
        TypeConverter_visit h depth line (ast.At lineno (ast.Subscript value (ast.Index v)))
        = Raise (AssertionError ""))
  ∧ (∀ value attr t,
        TypeConverter_visit h depth line value = OK t ->
        (∀ name l, t ≠ UnboundType name [] l) ->
        TypeConverter_visit h depth line (ast.At lineno (ast.Attribute value attr))
        = Raise (AssertionError "")).
Proof.
  split; [|split; [|split]].
  - intros d Hd. by destruct d.
  - intros value sl Hsl. destruct sl as [| |v]; try done. by destruct (Hsl v).
  - intros value v t Hv Ht.
    change (TypeConverter_visit h depth line (ast.At lineno (ast.Subscript value (ast.Index v))))
      with (TypeConverter.visit_Subscript line (TypeConverter_visit h depth line)
              value (ast.Index v)).
    unfold TypeConverter.visit_Subscript. rewrite Hv. simpl.
    destruct t as [|name [|] l| | | |]; try done. by destruct (Ht name l).
  - intros value attr t Hv Ht.
    change (TypeConverter_visit h depth line (ast.At lineno (ast.Attribute value attr)))
      with (TypeConverter.visit_Attribute line (TypeConverter_visit h depth line) value attr).
    unfold TypeConverter.visit_Attribute. rewrite Hv. simpl.
    destruct t as [|name [|] l| | | |]; try done. by destruct (Ht name l).
Qed.

Lemma TypeConverter_rejects_witness :
  TypeConverter_visit demo_host 0 1 demo_matmul
    = Raise (RuntimeError "Type node not implemented: BinOp")
  ∧ TypeConverter_visit demo_host 0 1 demo_subscript2 = Raise (AssertionError "").
Proof.
  destruct (TypeConverter_rejects demo_host 0 1 1) as (Hclass & _ & Hsub & _).
  split.
  - exact (Hclass (ast.BinOp (name_ 1 "a") ast.MatMult (name_ 1 "b")) eq_refl).
  - refine (Hsub (ast.At 1 (ast.Subscript (name_ 1 "X") (ast.Index (name_ 1 "int"))))
                 (name_ 1 "str")
                 (UnboundType "X" [UnboundType "int" [] (Some 1)] (Some 1)) eq_refl _).
    discriminate.
Defined.

(** ** Expressions *)

Lemma mapM_lookup {A B} (f : A -> result B) l r i x :
  mapM f l = OK r -> l !! i = Some x -> ∃ y, r !! i = Some y ∧ f x = OK y.
Proof.
  intros H Hx. apply mapM_OK_Forall2 in H.
  destruct (Forall2_lookup_l _ _ _ _ _ H Hx) as (y & Hy & Hf). eauto.
Qed.

(** X10.  A converted call holds three lists of one length, the number of
    positional arguments plus the number of keywords: position by position
    the converted argument (of a starred argument, what is under the star),
    its passing convention (star, positional, double star for a keyword
    without a name, named) and its name (none for a positional argument). *)
Theorem visit_Call_lists h depth lineno func args keywords node :
  visit_expr h depth (ast.At lineno (ast.Call func args keywords)) = OK node ->
  ∃ callee vals kinds names,
    node = L (Some lineno) (CallExpr callee vals kinds names)
    ∧ visit_expr h depth func = OK callee
    ∧ length vals = (length args + length keywords)%nat
    ∧ length kinds = length vals ∧ length names = length vals
    ∧ (∀ i a, args !! i = Some a ->
         ∃ v, visit_expr h depth (unstar a) = OK v ∧ vals !! i = Some v
              ∧ kinds !! i = Some (if is_stararg a then ARG_STAR else ARG_POS)
              ∧ names !! i = Some None)
    ∧ (∀ j k, keywords !! j = Some k ->
         let i := (length args + j)%nat in
         ∃ v, visit_expr h depth (keyword_value k) = OK v ∧ vals !! i = Some v
              ∧ kinds !! i = Some (if is_star2arg k then ARG_STAR2 else ARG_NAMED)
              ∧ names !! i = Some (keyword_arg k)).
Proof.
  intros H.
  change (with_line (visit_Call (visit_expr h depth) func args keywords) lineno = OK node)
    in H.
  unfold with_line, visit_Call in H.
  apply bind_OK_inv in H as (n0 & H & Hn). injection Hn as <-.
  apply bind_OK_inv in H as (pos & Hpos & H).
  apply bind_OK_inv in H as (kws & Hkws & H).
  apply bind_OK_inv in H as (callee & Hf & H). injection H as <-.
  pose proof (mapM_length _ _ _ Hpos) as Lpos.
  pose proof (mapM_length _ _ _ Hkws) as Lkws.
  eexists callee, (pos ++ kws), _, _. split; [reflexivity|]. split; [done|].
  rewrite !length_app, !length_map, Lpos, Lkws.
  split; [done|]. split; [done|]. split; [done|]. split.
  - intros i a Ha.
    destruct (mapM_lookup _ _ _ _ _ Hpos Ha) as (v & Hv & Hva).
    exists v. split; [|split; [|split]].
    + by destruct a as [l []].
    + by apply lookup_app_l_Some.
    + apply lookup_app_l_Some. by rewrite list_lookup_fmap, Ha.
    + apply lookup_app_l_Some. by rewrite list_lookup_fmap, Ha.
  - intros j k Hk i. unfold ast.keyword in *.
    destruct (mapM_lookup _ _ _ _ _ Hkws Hk) as (v & Hv & Hvk).
    exists v. unfold i. split; [|split; [|split]].
    + by destruct k.
    + rewrite <- Lpos. rewrite lookup_app_r by lia.
      by replace (length pos + j - length pos)%nat with j by lia.
    + rewrite lookup_app_r by (rewrite length_fmap; lia).
      rewrite length_fmap, list_lookup_fmap.
      replace (length args + j - length args)%nat with j by lia. by rewrite Hk.
    + rewrite lookup_app_r by (rewrite length_fmap; lia).
      rewrite length_fmap, list_lookup_fmap.
      replace (length args + j - length args)%nat with j by lia. rewrite Hk.
      by destruct k.
Qed.

Lemma visit_Call_lists_witness :
  ∃ callee vals,
    visit_expr demo_host 0 demo_call
      = OK (L (Some 1) (CallExpr callee vals [ARG_POS; ARG_STAR; ARG_NAMED; ARG_STAR2]
                                 [None; None; Some "k"; None]))
    ∧ length vals = 4%nat.
Proof.
  destruct (visit_Call_lists demo_host 0 1 (name_ 1 "f")
              [name_ 1 "a"; ast.At 1 (ast.Starred (name_ 1 "b"))]
              [ast.Keyword (Some "k") (name_ 1 "c"); ast.Keyword None (name_ 1 "d")]
              _ eq_refl)
    as (callee & vals & kinds & names & Hn & _ & Hlen & _).
  lazy in Hn. injection Hn as <- <- <- <-.
  eexists _, _. split; [lazy; reflexivity|exact Hlen].
Defined.

(** X11.  A converted comparison holds one operator name for each operator of
    the source, in order, and one operand more than there are comparators:
    the converted left operand followed by the converted comparators. *)
Theorem visit_Compare_lists h depth lineno left ops comparators node :
  visit_expr h depth (ast.At lineno (ast.Compare left ops comparators)) = OK node ->
  ∃ operators operands,
    node = L (Some lineno) (ComparisonExpr operators operands)
    ∧ length operators = length ops
    ∧ length operands = S (length comparators)
    ∧ (∀ i op, ops !! i = Some op ->
         ∃ name, operators !! i = Some name ∧ comp_op_map op = Some name)
    ∧ (∀ i e, (left :: comparators) !! i = Some e ->
         ∃ v, operands !! i = Some v ∧ visit_expr h depth e = OK v).
Proof.
  intros H.
  change (with_line (visit_Compare (visit_expr h depth) left ops comparators) lineno
          = OK node) in H.
  unfold with_line, visit_Compare, visit_list in H.
  apply bind_OK_inv in H as (n0 & H & Hn). injection Hn as <-.
  apply bind_OK_inv in H as (operators & Hops & H).
  apply bind_OK_inv in H as (operands & Hands & H). injection H as <-.
  exists operators, operands. split; [done|].
  split; [by apply mapM_length in Hops|].
  split; [by apply mapM_length in Hands|]. split.
  - intros i op Hop. destruct (mapM_lookup _ _ _ _ _ Hops Hop) as (name & Hname & Hf).
    exists name. split; [done|]. unfold from_comp_operator in Hf.
    destruct (comp_op_map op); [by injection Hf as ->|done].
  - intros i e He. by apply (mapM_lookup _ _ _ _ _ Hands He).
Qed.

Lemma visit_Compare_lists_witness :
  ∃ operands,
    visit_expr demo_host 0 demo_compare
      = OK (L (Some 1) (ComparisonExpr ["<"; "<="] operands))
    ∧ length operands = 3%nat.
Proof.
  destruct (visit_Compare_lists demo_host 0 1 (name_ 1 "a") [ast.Lt; ast.LtE]
              [name_ 1 "b"; name_ 1 "c"] _ eq_refl)
    as (operators & operands & Hn & _ & Hlen & _).
  lazy in Hn. injection Hn as <- <-.
  eexists. split; [lazy; reflexivity|exact Hlen].
Defined.


Lemma substring_prefix p s : String.substring 0 (String.length p) (p +:+ s) = p.
Proof.
  induction p as [|c p IH].
  - by destruct s.
  - rewrite append_String. simpl. by rewrite IH.
Qed.

Lemma str_slice_inner c1 c2 body c3 :
  str_slice (String c1 (String c2 (body +:+ String c3 ""))) 2 (-1) = body.
Proof.
  unfold str_slice, slice_bound. cbn [String.length]. rewrite length_append.
  cbn [String.length].
  replace (2 <? 0) with false by done. replace (-1 <? 0) with true by done.
  replace (Z.to_nat (Z.min 2 (Z.of_nat (S (S (String.length body + 1)))))) with 2%nat by lia.
  replace (Z.to_nat (Z.max 0 (Z.of_nat (S (S (String.length body + 1))) + -1))
           - 2)%nat with (String.length body) by lia.
  cbn [String.substring]. apply substring_prefix.
Qed.

(** X13.  When the text of a bytes object is its payload between a two-character
    opening (the prefix and a quote) and a one-character closing quote, the
    converted bytes literal holds exactly the payload. *)
Theorem visit_Bytes_payload h depth lineno s c1 c2 body c3 :
  bytes_str h s = String c1 (String c2 (body +:+ String c3 "")) ->
  visit_expr h depth (ast.At lineno (ast.Bytes s)) = OK (L (Some lineno) (BytesExpr body)).
Proof.
  intros Hs.
  change (visit_expr h depth (ast.At lineno (ast.Bytes s)))
    with (with_line (visit_Bytes h s) lineno).
  unfold with_line, visit_Bytes. rewrite Hs, str_slice_inner. done.
Qed.

Lemma visit_Bytes_payload_witness :
  visit_expr bytes_host 0 (ast.At 3 (ast.Bytes [])) = OK (L (Some 3) (BytesExpr "ab")).
Proof.
  exact (visit_Bytes_payload bytes_host 0 3 [] _ _ "ab" _ eq_refl).
Defined.



(** ** Line numbers *)

(** X15.  Every type object that the type converter builds, at any depth and
    through quoted types, carries the line the converter was created with;
    the one exception is the type of a singleton constant. *)
Theorem TypeConverter_keeps_line h depth line :
  (∀ e t, TypeConverter_visit h depth line e = OK t -> lines_ok line t)
  ∧ (∀ l ts, TypeConverter_visit_list h depth line l = OK ts -> Forall (lines_ok line) ts)
  ∧ (∀ text t, parse_type_comment h depth text line = OK t -> lines_ok line t).
Proof.
  split; [|split].
  - intros e t. apply TypeConverter_visit_lines.
  - intros l ts H. eapply mapM_Forall; [exact H|].
    intros x y _. apply TypeConverter_visit_lines.
  - intros text t. apply parse_type_comment_lines.
Qed.

Lemma TypeConverter_keeps_line_witness :
  lines_ok 7 (UnboundType "X" [UnboundType "int" [] (Some 7)] (Some 7)).
Proof.
  exact (proj1 (TypeConverter_keeps_line demo_host 0 7)
           (ast.At 1 (ast.Subscript (name_ 1 "X") (ast.Index (name_ 1 "int")))) _ eq_refl).
Defined.

(** X16.  Every expression other than a singleton constant, and every
    statement, converts to a node under the line of its source node.  The
    slice methods stamp nothing: a slice and an extended slice convert to a
    node without a line, and an index to the conversion of its value. *)
Theorem converted_node_lines h depth :
  (∀ lineno d node, visit_expr h depth (ast.At lineno d) = OK node ->
     (∀ value, d ≠ ast.NameConstant value) -> line node = Some lineno)
  ∧ (∀ lineno d st node st', visit_stmt h depth (ast.SAt lineno d) st = OK (node, st') ->
       line node = Some lineno)
  ∧ (∀ s node, visit_slice h depth s = OK node ->
       match s with
       | ast.Index value => visit_expr h depth value = OK node
       | _ => line node = None
       end).
Proof.
  split; [|split].
  - intros lineno d node. apply visit_expr_line.
  - intros lineno d st node st'. apply visit_stmt_line.
  - intros s node H. destruct s as [lower upper step|dims|value]; simpl in H.
    + unfold visit_Slice in H.
      apply bind_OK_inv in H as (l & _ & H). apply bind_OK_inv in H as (u & _ & H).
      apply bind_OK_inv in H as (s & _ & H). by injection H as <-.
    + unfold visit_ExtSlice in H.
      apply bind_OK_inv in H as (items & _ & H). by injection H as <-.
    + done.
Qed.

Lemma converted_node_lines_witness :
  (∃ node, visit_stmt demo_host 0 demo_assert (Self false []) = OK (node, Self false [])
           ∧ line node = Some 1)
  ∧ (∃ node, visit_slice demo_host 0 demo_slice = OK node ∧ line node = None).
Proof.
  destruct (converted_node_lines demo_host 0) as (_ & Hstmt & Hslice).
  split.
  - exists (L (Some 1) (AssertStmt (L (Some 1) (NameExpr "x")))).
    split; [reflexivity|].
    exact (Hstmt 1 (ast.Assert (name_ 1 "x") (Some demo_matmul)) (Self false [])
                 (L (Some 1) (AssertStmt (L (Some 1) (NameExpr "x")))) (Self false [])
                 eq_refl).
  - exists (L None (SliceExpr (Some (L (Some 1) (IntExpr 1))) (Some (L (Some 1) (IntExpr 2)))
                              None)).
    split; [reflexivity|].
    exact (Hslice demo_slice
                  (L None (SliceExpr (Some (L (Some 1) (IntExpr 1)))
                                     (Some (L (Some 1) (IntExpr 2))) None))
                  eq_refl).
Defined.

(** ** Simple statements *)

(** X17.  A [del] with one target converts to the deletion of the converted
    target; with two or more, to the deletion of a tuple of the converted
    targets, the tuple under the line of the statement; with no target at
    all the conversion raises an index error. *)
Theorem visit_Delete_targets h depth lineno st :
  visit_stmt h depth (ast.SAt lineno (ast.Delete [])) st = Raise IndexError
  ∧ (∀ t, visit_stmt h depth (ast.SAt lineno (ast.Delete [t])) st
          = match visit_expr h depth t with
            | OK e => OK (L (Some lineno) (DelStmt e), st)
            | Raise x => Raise x
            end)
  ∧ (∀ t1 t2 ts,
       visit_stmt h depth (ast.SAt lineno (ast.Delete (t1 :: t2 :: ts))) st
       = match mapM (visit_expr h depth) (t1 :: t2 :: ts) with
         | OK items =>
             OK (L (Some lineno) (DelStmt (L (Some lineno) (TupleExpr items))), st)
         | Raise x => Raise x
         end).
Proof.
  split; [done|]. split.
  - intros t.
    change (visit_stmt h depth (ast.SAt lineno (ast.Delete [t])) st)
      with (with_lineM (visit_Delete h depth lineno [t]) lineno st).
    unfold with_lineM, visit_Delete, visit_e, bindM, liftR, retM. simpl.
    by destruct (visit_expr h depth t).
  - intros t1 t2 ts.
    change (visit_stmt h depth (ast.SAt lineno (ast.Delete (t1 :: t2 :: ts))) st)
      with (with_lineM (visit_Delete h depth lineno (t1 :: t2 :: ts)) lineno st).
    unfold with_lineM, visit_Delete, visit_el, visit_list, bindM, liftR, retM.
    cbn [length Nat.ltb Nat.leb].
    by destruct (mapM (visit_expr h depth) (t1 :: t2 :: ts)).
Qed.



(** ** Induction along the visits of the conversion *)

Lemma sum_list_with_elem {A} (f : A -> nat) x l :
  x ∈ l -> (f x <= sum_list_with f l)%nat.
Proof.
  induction 1 as [x l|x y l _ IH]; simpl; lia.
Qed.

Lemma sum_list_with_omap (f : ast.expr -> nat) x (l : list (option ast.expr)) :
  x ∈ omap id l -> (f x <= sum_list_with (from_option f 0%nat) l)%nat.
Proof.
  intros H. apply list_elem_of_omap in H as (o & Ho & Hx).
  destruct o as [y|]; [|done]. simpl in Hx. injection Hx as ->.
  apply (sum_list_with_elem (from_option f 0%nat)) in Ho. done.
Qed.

Lemma option_list_size (f : ast.expr -> nat) x (o : option ast.expr) :
  x ∈ option_list o -> (f x <= from_option f 0%nat o)%nat.
Proof.
  destruct o as [y|]; simpl; [|by intros ?%elem_of_nil].
  by intros ->%list_elem_of_singleton.
Qed.

Lemma unstar_size a : (expr_size (unstar a) <= expr_size a)%nat.
Proof. destruct a as [l []]; simpl; lia. Qed.

Lemma visited_defaults_size x args :
  x ∈ visited_defaults args -> (expr_size x <= arguments_size expr_size args)%nat.
Proof.
  destruct args as [a va kw kwd kwa d]. unfold visited_defaults, arguments_size.
  intros [H|H]%elem_of_app.
  - case_bool_decide; [|by apply elem_of_nil in H].
    apply (sum_list_with_elem expr_size) in H. lia.
  - case_bool_decide; [|by apply elem_of_nil in H].
    apply (sum_list_with_omap expr_size) in H. lia.
Qed.

Lemma comprehension_exprs_size x (gens : list ast.comprehension) :
  x ∈ gens ≫= comprehension_exprs ->
  (expr_size x <= sum_list_with (comprehension_size expr_size) gens)%nat.
Proof.
  intros H. apply list_elem_of_bind in H as (c & Hx & Hc).
  apply (sum_list_with_elem (comprehension_size expr_size)) in Hc.
  destruct c as [t i ifs]. simpl in Hx, Hc.
  apply elem_of_cons in Hx as [->|Hx]; [lia|].
  apply elem_of_cons in Hx as [->|Hx]; [lia|].
  apply (sum_list_with_elem expr_size) in Hx. lia.
Qed.

(** Breaks a membership in a list of children into its cases. *)
Ltac split_elem H :=
  repeat match type of H with
         | _ ∈ _ <$> _ => apply list_elem_of_fmap in H as (? & ? & H); subst
         | _ ∈ list_fmap _ _ _ _ => apply list_elem_of_fmap in H as (? & ? & H); subst
         | _ ∈ _ ++ _ => apply elem_of_app in H as [H|H]
         | _ ∈ _ :: _ => apply elem_of_cons in H as [H|H]; subst
         | _ ∈ [] => by apply elem_of_nil in H
         end.

(** Bounds the size of a member of a list of children by the sum over the
    list. *)
Ltac size_bound :=
  simpl;
  repeat match goal with
         | H : _ ∈ visited_defaults _ |- _ => apply visited_defaults_size in H
         | H : _ ∈ omap id _ |- _ => apply (sum_list_with_omap expr_size) in H
         | H : _ ∈ _ ≫= comprehension_exprs |- _ => apply comprehension_exprs_size in H
         | H : _ ∈ option_list _ |- _ => apply (option_list_size expr_size) in H
         | H : ?x ∈ _ |- _ =>
             lazymatch type of x with
             | ast.expr => apply (sum_list_with_elem expr_size) in H
             | ast.slice => apply (sum_list_with_elem slice_size) in H
             | ast.stmt => apply (sum_list_with_elem stmt_size) in H
             | ast.withitem => apply (sum_list_with_elem withitem_size) in H; destruct x
             | _ =>
                 apply (sum_list_with_elem
                          (fun k => match k with ast.Keyword _ v => expr_size v end)) in H;
                 destruct x
             end
         | |- context [unstar ?a] =>
             lazymatch goal with
             | _ : (expr_size (unstar a) <= _)%nat |- _ => fail
             | _ => pose proof (unstar_size a)
             end
         end;
  simpl in *; lia.

Lemma expr_children_size d c lineno :
  c ∈ expr_children d -> (anode_size c < expr_size (ast.At lineno d))%nat.
Proof.
  intros H. destruct d; simpl in H;
    try (destruct (is_super_call value)); split_elem H; size_bound.
Qed.

Lemma slice_children_size s c :
  c ∈ slice_children s -> (anode_size c < slice_size s)%nat.
Proof. intros H. destruct s; simpl in H; split_elem H; size_bound. Qed.

Lemma handler_children_size c (handlers : list ast.excepthandler) :
  c ∈ handlers ≫= handler_children ->
  (anode_size c
   <= sum_list_with
        (fun hd => match hd with
                   | ast.ExceptHandler type _ hbody _ =>
                       (from_option expr_size 0 type + sum_list_with stmt_size hbody)%nat
                   end) handlers)%nat.
Proof.
  intros H. apply list_elem_of_bind in H as (hd & H & Hhd).
  eapply (sum_list_with_elem _) in Hhd. etransitivity; [|exact Hhd].
  destruct hd as [type name hbody hline]. simpl in H. split_elem H; size_bound.
Qed.

Lemma withitem_exprs_size x (items : list ast.withitem) :
  x ∈ items ≫= withitem_exprs -> (expr_size x <= sum_list_with withitem_size items)%nat.
Proof.
  intros H. apply list_elem_of_bind in H as (i & H & Hi).
  apply (sum_list_with_elem withitem_size) in Hi. etransitivity; [|exact Hi].
  destruct i as [c o]. simpl in H. split_elem H; size_bound.
Qed.

Lemma stmt_children_size d c lineno :
  c ∈ stmt_children d -> (anode_size c < stmt_size (ast.SAt lineno d))%nat.
Proof.
  intros H. destruct d; simpl in H; split_elem H;
    try (apply handler_children_size in H);
    try (match goal with
         | Hx : _ ∈ _ ≫= withitem_exprs |- _ => apply withitem_exprs_size in Hx
         end);
    size_bound.
Qed.

(** A visited node is smaller than the node whose conversion visits it. *)
Lemma visits_size p c : visits p c -> (anode_size c < anode_size p)%nat.
Proof.
  unfold visits. destruct p as [[body tis]|[l d]|[l d]|s]; simpl children.
  - intros H. split_elem H. size_bound.
  - apply stmt_children_size.
  - apply expr_children_size.
  - apply slice_children_size.
Qed.

(** What holds of a node whenever it holds of the nodes that its conversion
    visits, holds of every node. *)
Lemma visits_ind (P : anode -> Prop) :
  (∀ n, (∀ c, visits n c -> P c) -> P n) -> ∀ n, P n.
Proof.
  intros Hstep n. remember (anode_size n) as k eqn:Hk.
  revert n Hk. induction k as [k IH] using lt_wf_ind. intros n ->.
  apply Hstep. intros c Hc. apply (IH (anode_size c)); [|done].
  by apply visits_size.
Qed.

(** ** The converter object along a conversion *)

Lemma after_id self : after false [] self = self.
Proof. destruct self. unfold after. simpl. by rewrite andb_true_r, app_nil_r. Qed.

Lemma after_after c1 i1 c2 i2 self :
  after c2 i2 (after c1 i1 self) = after (c1 || c2) (i1 ++ i2) self.
Proof.
  unfold after. simpl. f_equal.
  - rewrite negb_orb. by rewrite andb_assoc.
  - by rewrite app_assoc.
Qed.

Lemma Effect_eq {A} (m : M A) c i c' i' :
  Effect m c i -> c = c' -> i = i' -> Effect m c' i'.
Proof. by intros H <- <-. Qed.

Lemma Effect_ret {A} (a : A) : Effect (retM a) false [].
Proof. intros st b st' H. apply retM_OK_inv in H as [_ ->]. by rewrite after_id. Qed.

Lemma Effect_liftR {A} (r : result A) : Effect (liftR r) false [].
Proof. intros st b st' H. apply liftR_OK_inv in H as [_ ->]. by rewrite after_id. Qed.

Lemma Effect_raise {A} e c i : Effect (raiseM (A:=A) e) c i.
Proof. by intros st b st' H. Qed.

Lemma Effect_bind {A B} (m : M A) (k : A -> M B) c1 i1 c2 i2 :
  Effect m c1 i1 -> (∀ a, Effect (k a) c2 i2) -> Effect (bindM m k) (c1 || c2) (i1 ++ i2).
Proof.
  intros Hm Hk st b st' H. apply bindM_OK_inv in H as (a & st1 & H1 & H2).
  apply Hm in H1 as ->. apply Hk in H2 as ->. apply after_after.
Qed.

Lemma Effect_mapMM {A B} (f : A -> M B) (c : A -> bool) (i : A -> list Node) l :
  (∀ x, x ∈ l -> Effect (f x) (c x) (i x)) -> Effect (mapMM f l) (existsb c l) (l ≫= i).
Proof.
  induction l as [|x l IH]; intros Hf.
  - apply Effect_ret.
  - rewrite mapMM_cons. eapply Effect_eq.
    + apply Effect_bind; [apply Hf, list_elem_of_here|]. intros y.
      apply Effect_bind; [apply IH|intros ys; apply Effect_ret].
      intros z Hz. by apply Hf, list_elem_of_further.
    + simpl. by rewrite orb_false_r.
    + rewrite bind_cons. by rewrite app_nil_r.
Qed.

Lemma Effect_as_block (visit : ast.stmt -> M Node) c i stmts lineno :
  (∀ x, x ∈ stmts -> Effect (visit x) (c x) (i x)) ->
  Effect (as_block visit stmts lineno) (existsb c stmts) (stmts ≫= i).
Proof.
  intros Hv. destruct stmts as [|s stmts]; [apply Effect_ret|].
  unfold as_block. eapply Effect_eq.
  - apply Effect_bind; [by apply Effect_mapMM|]. intros a. apply Effect_ret.
  - by rewrite orb_false_r.
  - by rewrite app_nil_r.
Qed.

Lemma Effect_with_lineM {A} (m : M (lined A)) lineno c i :
  Effect m c i -> Effect (with_lineM m lineno) c i.
Proof.
  intros H. unfold with_lineM. eapply Effect_eq.
  - apply Effect_bind; [exact H|]. intros a. apply Effect_ret.
  - by rewrite orb_false_r.
  - by rewrite app_nil_r.
Qed.

Lemma Effect_imports_append n : Effect (imports_append n) false [n].
Proof.
  intros st b st' H. injection H as _ <-. unfold after. simpl.
  by rewrite andb_true_r.
Qed.

Lemma Effect_get_in_class : Effect get_in_class false [].
Proof. intros st b st' H. injection H as _ <-. by rewrite after_id. Qed.

(** Pure steps followed by a step with an effect, and the other way
    round. *)
Ltac effect_step :=
  lazymatch goal with
  | |- Effect (retM _) _ _ => apply Effect_ret
  | |- Effect (raiseM _) _ _ => apply Effect_raise
  | |- Effect (liftR _) _ _ => apply Effect_liftR
  | |- Effect (visit_e _ _ _) _ _ => apply Effect_liftR
  | |- Effect (visit_eo _ _ _) _ _ => apply Effect_liftR
  | |- Effect (visit_el _ _ _) _ _ => apply Effect_liftR
  | |- Effect get_in_class _ _ => apply Effect_get_in_class
  | |- Effect (imports_append _) _ _ => apply Effect_imports_append
  | |- Effect (with_lineM _ _) _ _ => apply Effect_with_lineM
  | |- Effect (bindM _ _) _ _ =>
      eapply Effect_eq; [apply Effect_bind; [|intros ?]|..]
  | |- Effect (match ?x with _ => _ end) _ _ => destruct x
  | |- Effect (if ?b then _ else _) _ _ => destruct b
  end.

Section state.
Variables (h : host) (depth : nat).

(** The statement list of a body, when each statement has its effect. *)
Lemma Effect_body stmts lineno :
  (∀ x, x ∈ stmts -> Effect (visit_stmt h depth x) (contains_class x) (stmt_imports x)) ->
  Effect (as_block (visit_stmt h depth) stmts lineno)
         (existsb contains_class stmts) (stmts ≫= stmt_imports).
Proof. apply Effect_as_block. Qed.

Lemma after_in_class_false imps self :
  Self false (imports self ++ imps) = after true imps self.
Proof. unfold after. simpl. by rewrite andb_false_r. Qed.

Lemma Effect_mapMM_pure {A B} (f : A -> M B) l :
  (∀ x, Effect (f x) false []) -> Effect (mapMM f l) false [].
Proof.
  intros Hf. induction l as [|x l IH]; [apply Effect_ret|].
  rewrite mapMM_cons. eapply Effect_eq.
  - apply Effect_bind; [apply Hf|]. intros y.
    apply Effect_bind; [apply IH|intros ys; apply Effect_ret].
  - done.
  - done.
Qed.

(** The node of a [from ... import ...] with its line. *)
Lemma ImportFrom_node module names level lineno :
  set_line
    match names with
    | [ast.Alias "*" _] => new (ImportAll module level)
    | _ => new (ImportFrom (default "" module) level
                  (map (fun a => match a with ast.Alias n asn => (n, asn) end) names))
    end lineno
  = L (Some lineno)
      match names with
      | [ast.Alias "*" _] => ImportAll module level
      | _ => ImportFrom (default "" module) level (alias_pair <$> names)
      end.
Proof.
  destruct names as [|[n asn] [|a names]]; try reflexivity;
    destruct n as [|[[] [] [] [] [] [] [] []] []]; reflexivity.
Qed.

Lemma visit_stmt_Effect s :
  Effect (visit_stmt h depth s) (contains_class s) (stmt_imports s).
Proof.
  change (match AStmt s with
          | AStmt s => Effect (visit_stmt h depth s) (contains_class s) (stmt_imports s)
          | _ => True
          end).
  induction (AStmt s) as [n IH] using visits_ind. clear s.
  destruct n as [|[lineno d]| |]; try done.
  assert (∀ x, visits (AStmt (ast.SAt lineno d)) (AStmt x) ->
               Effect (visit_stmt h depth x) (contains_class x) (stmt_imports x)) as IHs.
  { intros x Hx. apply (IH (AStmt x) Hx). }
  clear IH. unfold visits in IHs. cbn [children] in IHs.
  assert (∀ stmts l,
            (∀ x, x ∈ stmts -> AStmt x ∈ stmt_children d) ->
            Effect (as_block (visit_stmt h depth) stmts l)
                   (existsb contains_class stmts) (stmts ≫= stmt_imports)) as Hblock.
  { intros stmts l Hin. apply Effect_body. intros x Hx. by apply IHs, Hin. }
  destruct d; cbn [visit_stmt];
    try (eapply Effect_eq;
         [apply Effect_with_lineM;
          unfold visit_FunctionDef, visit_Delete, visit_Assign, visit_AugAssign,
            visit_For, visit_While, visit_If, visit_With, visit_Raise, visit_Assert,
            visit_Import, visit_ImportFrom, visit_Global, visit_Nonlocal, visit_Expr,
            visit_Pass, visit_Break, visit_Continue, visit_Try;
          cbv zeta;
          repeat first
            [ effect_step
            | apply Hblock; intros ? ?; cbn [stmt_children]; set_solver
            | by apply Effect_mapMM_pure; intros []; apply Effect_liftR ]
         |..]).
  all: try reflexivity.
  all: try apply Effect_liftR.
  all: try (simpl; rewrite ?orb_false_r, ?app_nil_r; reflexivity).
  - (* ClassDef *)
    intros st node st' H. unfold visit_ClassDef in H.
    apply bindM_OK_inv in H as ([] & s1 & Hset & H). injection Hset as <-.
    apply bindM_OK_inv in H as (metaclass & s2 & Hmeta & H).
    assert (s2 = Self true (imports st)) as ->.
    { eapply (Effect_eq _ _ _ false []) in Hmeta; [by rewrite after_id in Hmeta| |done..].
      repeat effect_step; reflexivity. }
    apply bindM_OK_inv in H as (stmts & s3 & Hbody & H).
    eapply Effect_mapMM in Hbody;
      [|intros x Hx; apply IHs; cbn [stmt_children]; set_solver].
    apply bindM_OK_inv in H as (bs & s4 & Hbs & H). apply liftR_OK_inv in Hbs as [_ ->].
    apply bindM_OK_inv in H as (ds & s5 & Hds & H). apply liftR_OK_inv in Hds as [_ ->].
    apply bindM_OK_inv in H as ([] & s6 & Hset & H). injection Hset as <-.
    apply retM_OK_inv in H as [_ ->]. subst s3. simpl.
    apply after_in_class_false.
  - (* Try: the bodies of the handlers *)
    apply (Effect_mapMM _
             (fun hd => match hd with
                        | ast.ExceptHandler _ _ hbody _ => existsb contains_class hbody
                        end)
             (fun hd => match hd with
                        | ast.ExceptHandler _ _ hbody _ => hbody ≫= stmt_imports
                        end)).
    intros [type name hbody hline] Hhd. apply Hblock. intros x Hx.
    cbn [stmt_children]. apply elem_of_app. left. apply list_elem_of_bind.
    exists (ast.ExceptHandler type name hbody hline). split; [|done].
    simpl. set_solver.
  - simpl. rewrite ?orb_false_r, ?orb_assoc. reflexivity.
  - rewrite ImportFrom_node. reflexivity.
Qed.
End state.

(** X19.  What the conversion of a statement does to the converter object, when
    it returns: the import list grows, at its end, by the import nodes of the
    statement, its own or at any depth inside it, each under its line and
    in the order of the conversion (the handlers of a [try] before its
    body); and the class flag is cleared if the statement is or contains a
    class definition, and is as before otherwise. *)
Theorem visit_stmt_state h depth s self node self' :
  visit_stmt h depth s self = OK (node, self') ->
  imports self' = imports self ++ stmt_imports s
  ∧ in_class self' = in_class self && negb (contains_class s).
Proof.
  intros H. apply visit_stmt_Effect in H. by subst self'.
Qed.

Lemma visit_stmt_state_witness :
  ∃ node self',
    visit_stmt demo_host 0 demo_try (Self true []) = OK (node, self')
    ∧ imports self' = [L (Some 4) (Import [("b", None)]); L (Some 2) (Import [("a", None)])]
    ∧ in_class self' = true.
Proof.
  eexists _, _. split; [lazy; reflexivity|].
  exact (visit_stmt_state demo_host 0 demo_try (Self true []) _ _ eq_refl).
Defined.

(** ** Modules *)

Lemma mapMM_OK_Forall2 {A B} (f : A -> M B) l : ∀ st r st',
  mapMM f l st = OK (r, st') ->
  Forall2 (fun x y => ∃ s s', f x s = OK (y, s')) l r.
Proof.
  induction l as [|x l IH]; intros st r st' H.
  - apply retM_OK_inv in H as [-> _]. constructor.
  - rewrite mapMM_cons in H.
    apply bindM_OK_inv in H as (y & s1 & Hy & H).
    apply bindM_OK_inv in H as (ys & s2 & Hys & H).
    apply retM_OK_inv in H as [-> _]. constructor; [eauto|]. by eapply IH.
Qed.

Lemma set_line_ImportFrom_kind module names level lineno :
  is_overloaded
    (set_line
       match names with
       | [ast.Alias "*" _] => new (ImportAll module level)
       | _ => new (ImportFrom (default "" module) level
                     (map (fun a => match a with ast.Alias n asn => (n, asn) end) names))
       end lineno) = false.
Proof. rewrite ImportFrom_node. by destruct names as [|[[|[[] [] [] [] [] [] [] []] []] ?] [|? ?]]. Qed.

(** Inverts a computation of the converter that returned, down to the node
    it built. *)
Ltac invert_visit H :=
  repeat (cbv beta zeta in H;
          lazymatch type of H with
          | bindM _ _ _ = OK _ => apply bindM_OK_inv in H as (? & ? & _ & H)
          | retM _ _ = OK _ => apply retM_OK_inv in H as [-> _]
          | (match ?x with _ => _ end) _ = OK _ => destruct x
          | (if ?b then _ else _) _ = OK _ => destruct b
          | raiseM _ _ = OK _ => discriminate H
          end).

(** The conversion of a statement never builds a combined node: those come
    from overload folding only. *)
Lemma visit_stmt_not_overloaded h depth s st node st' :
  visit_stmt h depth s st = OK (node, st') -> is_overloaded node = false.
Proof.
  destruct s as [lineno d]. intros H.
  destruct d; cbn [visit_stmt] in H; try done;
    unfold with_lineM in H;
    apply bindM_OK_inv in H as (n0 & s0 & H & Hret);
    apply retM_OK_inv in Hret as [-> _];
    try (unfold visit_ImportFrom in H; cbv zeta in H;
         apply bindM_OK_inv in H as (? & ? & _ & H);
         apply retM_OK_inv in H as [-> _]; apply set_line_ImportFrom_kind);
    try (apply liftR_OK_inv in H as [H _]; unfold visit_Return in H;
         apply bind_OK_inv in H as (? & _ & H); by injection H as <-);
    unfold visit_FunctionDef, visit_ClassDef, visit_Delete, visit_Assign, visit_AugAssign,
      visit_For, visit_While, visit_If, visit_With, visit_Raise, visit_Assert,
      visit_Import, visit_Global, visit_Nonlocal, visit_Expr,
      visit_Pass, visit_Break, visit_Continue, visit_Try in H;
    invert_visit H; done.
Qed.

(** X20.  The converted module: its definitions are the converted statements of
    the body, one for each source statement, after overload folding, so that
    putting the items of the combined nodes in their place gives the
    converted statements back; its import list holds the import nodes of
    the whole body; its ignored lines are exactly the lines of the
    type-ignore comments; and the conversion sets no byte-order mark, no
    weak option, no path and no stub flag. *)
Theorem visit_Module_tree h depth body type_ignores tree :
  convert h depth (ast.Module_ body type_ignores) = OK tree ->
  ∃ stmts self',
    mapMM (visit_stmt h depth) body (Self false []) = OK (stmts, self')
    ∧ length stmts = length body
    ∧ defs tree = fix_function_overloads stmts
    ∧ defs tree ≫= overload_items = stmts
    ∧ tree_imports tree = body ≫= stmt_imports
    ∧ (∀ l, l ∈ ignored_lines tree ↔ ast.TypeIgnore l ∈ type_ignores)
    ∧ is_bom tree = false ∧ weak_opts tree = ∅
    ∧ path tree = None ∧ is_stub tree = None.
Proof.
  intros H. unfold convert in H. apply bind_OK_inv in H as ([t st] & H & Ht).
  injection Ht as <-. unfold visit_Module in H.
  apply bindM_OK_inv in H as (stmts & s1 & Hbody & H).
  apply bindM_OK_inv in H as (imps & s2 & Himps & H).
  injection Himps as <- <-. apply retM_OK_inv in H as [-> _].
  exists stmts, s1. split; [done|].
  pose proof (mapMM_OK_Forall2 _ _ _ _ _ Hbody) as Hall.
  split; [symmetry; by eapply Forall2_length|]. split; [done|]. split.
  - simpl. rewrite (Folded_items stmts) by apply fix_function_overloads_Folded.
    apply items_not_overloaded.
    clear -Hall. induction Hall as [|x y l r (s & s' & Hxy) _ IH]; constructor; [|done].
    by eapply visit_stmt_not_overloaded.
  - split.
    + simpl. eapply (Effect_mapMM _ contains_class stmt_imports) in Hbody.
      * by subst s1.
      * intros x _. apply visit_stmt_Effect.
    + split; [|done]. intros l. simpl. rewrite elem_of_list_to_set. split.
      * intros (ti & -> & Hti)%list_elem_of_fmap. by destruct ti.
      * intros Hti. apply list_elem_of_fmap. by exists (ast.TypeIgnore l).
Qed.

Lemma visit_Module_tree_witness :
  ∃ tree,
    convert demo_host 0 demo_module = OK tree
    ∧ length (defs tree) = 2%nat
    ∧ tree_imports tree
      = [L (Some 4) (Import [("b", None)]); L (Some 2) (Import [("a", None)])]
    ∧ (3 ∈ ignored_lines tree ↔ ast.TypeIgnore 3 ∈ [ast.TypeIgnore 1; ast.TypeIgnore 3]).
Proof.
  destruct (convert demo_host 0 demo_module) as [tree|e] eqn:Hc; [|by vm_compute in Hc].
  exists tree. split; [done|].
  destruct (visit_Module_tree demo_host 0 _ _ tree Hc)
    as (stmts & self' & Hs & Hlen & Hdefs & _ & Himps & Hign & _).
  split; [|split; [exact Himps|exact (Hign 3)]].
  vm_compute in Hs. injection Hs as <- _. rewrite Hdefs. reflexivity.
Defined.

(** ** Compound statements *)

Lemma mapMM_lookup {A B} (f : A -> M B) l st r st' i x :
  mapMM f l st = OK (r, st') -> l !! i = Some x ->
  ∃ y s s', r !! i = Some y ∧ f x s = OK (y, s').
Proof.
  intros H Hx. apply mapMM_OK_Forall2 in H.
  destruct (Forall2_lookup_l _ _ _ _ _ H Hx) as (y & Hy & s & s' & Hf). eauto.
Qed.

Lemma mapMM_length {A B} (f : A -> M B) l st r st' :
  mapMM f l st = OK (r, st') -> length r = length l.
Proof. intros H. symmetry. eapply Forall2_length, mapMM_OK_Forall2, H. Qed.

Lemma as_block_block_of (visit : ast.stmt -> M Node) stmts lineno st b st' :
  as_block visit stmts lineno st = OK (b, st') -> block_of lineno stmts b.
Proof.
  destruct stmts as [|s stmts]; unfold as_block.
  - by intros [-> _]%retM_OK_inv.
  - intros H. apply bindM_OK_inv in H as (body & s1 & Hbody & H).
    apply retM_OK_inv in H as [-> _]. apply mapMM_length in Hbody.
    unfold block_of. simpl. by rewrite Hbody.
Qed.

(** X21.  An [if], a [while] and a [for] convert to their node with the
    converted test (for a [for], target and iterable) and their two blocks.
    A block is absent exactly when the statement list is empty; otherwise it
    is under the line of the statement itself, the [else] block too, and has
    one statement for each source statement: overload folding is not applied
    inside these blocks.  An [if] always holds exactly one condition and one
    body, an [elif] being an [if] inside the [else] block. *)
Theorem compound_blocks h depth lineno st node st' :
  (∀ test body orelse,
     visit_stmt h depth (ast.SAt lineno (ast.If test body orelse)) st = OK (node, st') ->
     ∃ e b els, node = L (Some lineno) (IfStmt [e] [b] els)
                ∧ visit_expr h depth test = OK e
                ∧ block_of lineno body b ∧ block_of lineno orelse els)
  ∧ (∀ test body orelse,
       visit_stmt h depth (ast.SAt lineno (ast.While test body orelse)) st
         = OK (node, st') ->
       ∃ e b els, node = L (Some lineno) (WhileStmt e b els)
                  ∧ visit_expr h depth test = OK e
                  ∧ block_of lineno body b ∧ block_of lineno orelse els)
  ∧ (∀ target iter body orelse tc,
       visit_stmt h depth (ast.SAt lineno (ast.For target iter body orelse tc)) st
         = OK (node, st') ->
       ∃ i e b els, node = L (Some lineno) (ForStmt i e b els)
                    ∧ visit_expr h depth target = OK i
                    ∧ visit_expr h depth iter = OK e
                    ∧ block_of lineno body b ∧ block_of lineno orelse els).
Proof.
  split; [|split].
  - intros test body orelse H.
    change (with_lineM (visit_If h depth (visit_stmt h depth) lineno test body orelse)
                       lineno st = OK (node, st')) in H.
    unfold with_lineM, visit_If in H.
    apply bindM_OK_inv in H as (n0 & s0 & H & Hret). apply retM_OK_inv in Hret as [-> _].
    apply bindM_OK_inv in H as (e & s1 & He & H). apply liftR_OK_inv in He as [He ->].
    apply bindM_OK_inv in H as (b & s2 & Hb & H). apply as_block_block_of in Hb.
    apply bindM_OK_inv in H as (els & s3 & Hels & H). apply as_block_block_of in Hels.
    apply retM_OK_inv in H as [-> _]. by exists e, b, els.
  - intros test body orelse H.
    change (with_lineM (visit_While h depth (visit_stmt h depth) lineno test body orelse)
                       lineno st = OK (node, st')) in H.
    unfold with_lineM, visit_While in H.
    apply bindM_OK_inv in H as (n0 & s0 & H & Hret). apply retM_OK_inv in Hret as [-> _].
    apply bindM_OK_inv in H as (e & s1 & He & H). apply liftR_OK_inv in He as [He ->].
    apply bindM_OK_inv in H as (b & s2 & Hb & H). apply as_block_block_of in Hb.
    apply bindM_OK_inv in H as (els & s3 & Hels & H). apply as_block_block_of in Hels.
    apply retM_OK_inv in H as [-> _]. by exists e, b, els.
  - intros target iter body orelse tc H.
    change (with_lineM (visit_For h depth (visit_stmt h depth) lineno target iter body
                          orelse) lineno st = OK (node, st')) in H.
    unfold with_lineM, visit_For in H.
    apply bindM_OK_inv in H as (n0 & s0 & H & Hret). apply retM_OK_inv in Hret as [-> _].
    apply bindM_OK_inv in H as (i & s1 & Hi & H). apply liftR_OK_inv in Hi as [Hi ->].
    apply bindM_OK_inv in H as (e & s2 & He & H). apply liftR_OK_inv in He as [He ->].
    apply bindM_OK_inv in H as (b & s3 & Hb & H). apply as_block_block_of in Hb.
    apply bindM_OK_inv in H as (els & s4 & Hels & H). apply as_block_block_of in Hels.
    apply retM_OK_inv in H as [-> _]. by exists i, e, b, els.
Qed.

Lemma compound_blocks_witness :
  ∃ e blk, visit_stmt demo_host 0 demo_if (Self false [])
           = OK (L (Some 1) (IfStmt [e] [Some blk] None), Self false [])
           ∧ line blk = Some 1 ∧ length (it blk) = 2%nat.
Proof.
  destruct (visit_stmt demo_host 0 demo_if (Self false [])) as [[node st']|x] eqn:Hv;
    [|by vm_compute in Hv].
  destruct (proj1 (compound_blocks demo_host 0 1 (Self false []) node st')
              (name_ 1 "x") [overload_def 2; overload_def 4] [] Hv)
    as (e & b & els & -> & _ & Hb & Hels).
  destruct els as [?|]; [done|]. destruct b as [blk|]; [|done].
  destruct Hb as (_ & Hline & Hlen).
  exists e, blk. split; [|done].
  vm_compute in Hv. by injection Hv as _ _ <-.
Defined.

(** X22.  A [with] statement converts to a node whose two lists have one entry
    for each item, in order: the converted context expression, and the
    converted target or nothing where the item has none; its body is the
    block of the statement. *)
Theorem visit_With_lists h depth lineno items body tc st node st' :
  visit_stmt h depth (ast.SAt lineno (ast.With items body tc)) st = OK (node, st') ->
  ∃ es targets b,
    node = L (Some lineno) (WithStmt es targets b)
    ∧ length es = length items ∧ length targets = length items
    ∧ block_of lineno body b
    ∧ ∀ i c o, items !! i = Some (ast.WithItem c o) ->
        ∃ e t, es !! i = Some e ∧ targets !! i = Some t
               ∧ visit_expr h depth c = OK e
               ∧ visit_opt (visit_expr h depth) o = OK t.
Proof.
  intros H.
  change (with_lineM (visit_With h depth (visit_stmt h depth) lineno items body)
                     lineno st = OK (node, st')) in H.
  unfold with_lineM, visit_With in H.
  apply bindM_OK_inv in H as (n0 & s0 & H & Hret). apply retM_OK_inv in Hret as [-> _].
  apply bindM_OK_inv in H as (es & s1 & Hes & H).
  apply bindM_OK_inv in H as (targets & s2 & Hts & H).
  apply bindM_OK_inv in H as (b & s3 & Hb & H). apply as_block_block_of in Hb.
  apply retM_OK_inv in H as [-> _].
  exists es, targets, b. split; [done|].
  split; [by apply mapMM_length in Hes|]. split; [by apply mapMM_length in Hts|].
  split; [done|]. intros i c o Hi.
  destruct (mapMM_lookup _ _ _ _ _ _ _ Hes Hi) as (e & s & s' & He & Hc).
  destruct (mapMM_lookup _ _ _ _ _ _ _ Hts Hi) as (t & u & u' & Ht & Ho).
  apply liftR_OK_inv in Hc as [Hc _]. apply liftR_OK_inv in Ho as [Ho _].
  by exists e, t.
Qed.

Lemma visit_With_lists_witness :
  ∃ es targets b,
    visit_stmt demo_host 0 demo_with (Self false [])
    = OK (L (Some 1) (WithStmt es targets b), Self false [])
    ∧ length es = 2%nat ∧ length targets = 2%nat.
Proof.
  destruct (visit_stmt demo_host 0 demo_with (Self false [])) as [[node st']|x] eqn:Hv;
    [|by vm_compute in Hv].
  destruct (visit_With_lists demo_host 0 1
              [ast.WithItem (name_ 1 "a") (Some (name_ 1 "x"));
               ast.WithItem (name_ 1 "b") None]
              [ast.SAt 2 ast.Pass] None (Self false []) node st' Hv)
    as (es & targets & b & -> & Hes & Hts & _).
  exists es, targets, b. split; [|by split; [exact Hes|exact Hts]].
  vm_compute in Hv. by simplify_eq.
Defined.

(** X23.  A [try] statement converts to a node whose three handler lists have one
    entry for each handler, in order: the name reference of the bound name
    (built without a line) or nothing, the converted exception type or
    nothing, and the block of the handler's body under the line of the
    handler; body, [else] and [finally] are blocks under the line of the
    [try]. *)
Theorem visit_Try_lists h depth lineno body handlers orelse finalbody st node st' :
  visit_stmt h depth (ast.SAt lineno (ast.Try body handlers orelse finalbody)) st
    = OK (node, st') ->
  ∃ b vs types hs els fin,
    node = L (Some lineno) (TryStmt b vs types hs els fin)
    ∧ block_of lineno body b ∧ block_of lineno orelse els
    ∧ block_of lineno finalbody fin
    ∧ length vs = length handlers ∧ length types = length handlers
    ∧ length hs = length handlers
    ∧ ∀ i type name hbody hline,
        handlers !! i = Some (ast.ExceptHandler type name hbody hline) ->
        ∃ t hb, vs !! i = Some ((fun n => L None (NameExpr n)) <$> name)
                ∧ types !! i = Some t ∧ hs !! i = Some hb
                ∧ visit_opt (visit_expr h depth) type = OK t
                ∧ block_of hline hbody hb.
Proof.
  intros H.
  change (with_lineM (visit_Try h depth (visit_stmt h depth) lineno body handlers orelse
                        finalbody) lineno st = OK (node, st')) in H.
  unfold with_lineM, visit_Try in H.
  apply bindM_OK_inv in H as (n0 & s0 & H & Hret). apply retM_OK_inv in Hret as [-> _].
  apply bindM_OK_inv in H as (types & s1 & Hts & H).
  apply bindM_OK_inv in H as (hs & s2 & Hhs & H).
  apply bindM_OK_inv in H as (b & s3 & Hb & H). apply as_block_block_of in Hb.
  apply bindM_OK_inv in H as (els & s4 & Hels & H). apply as_block_block_of in Hels.
  apply bindM_OK_inv in H as (fin & s5 & Hfin & H). apply as_block_block_of in Hfin.
  apply retM_OK_inv in H as [-> _].
  eexists b, _, types, hs, els, fin. split; [reflexivity|].
  split; [done|]. split; [done|]. split; [done|].
  split; [by rewrite length_map|].
  split; [by apply mapMM_length in Hts|]. split; [by apply mapMM_length in Hhs|].
  intros i type name hbody hline Hi. unfold ast.excepthandler in *.
  destruct (mapMM_lookup _ _ _ _ _ _ _ Hts Hi) as (t & s & s' & Ht & Hty).
  destruct (mapMM_lookup _ _ _ _ _ _ _ Hhs Hi) as (hb & u & u' & Hhb & Hblk).
  apply liftR_OK_inv in Hty as [Hty _]. apply as_block_block_of in Hblk.
  exists t, hb. split; [|done].
  change (map ?f handlers) with (f <$> handlers).
  rewrite list_lookup_fmap, Hi. by destruct name.
Qed.

Lemma visit_Try_lists_witness :
  ∃ b vs types hs els fin,
    visit_stmt demo_host 0 demo_handler (Self false [])
    = OK (L (Some 1) (TryStmt b vs types hs els fin), Self false [])
    ∧ vs = [Some (L None (NameExpr "e"))]
    ∧ length types = 1%nat ∧ length hs = 1%nat.
Proof.
  destruct (visit_stmt demo_host 0 demo_handler (Self false [])) as [[node st']|x] eqn:Hv;
    [|by vm_compute in Hv].
  destruct (visit_Try_lists demo_host 0 1 [ast.SAt 2 ast.Pass]
              [ast.ExceptHandler (Some (name_ 3 "E")) (Some "e") [ast.SAt 4 ast.Pass] 3]
              [] [] (Self false []) node st' Hv)
    as (b & vs & types & hs & els & fin & -> & _ & _ & _ & _ & Hts & Hhs & _).
  exists b, vs, types, hs, els, fin.
  split; [|split; [|by split; [exact Hts|exact Hhs]]];
    vm_compute in Hv; by simplify_eq.
Defined.

(** ** Function and class definitions *)

Section annotations.
Variables (h : host) (depth : nat) (visit : ast.expr -> result Node) (line : Z).


End annotations.








(** ** Inputs that the conversion accepts *)

Lemma returnsR_OK {A} (a : A) : returnsR (OK a).
Proof. by exists a. Qed.

Lemma returnsR_bind {A B} (m : result A) (k : A -> result B) :
  returnsR m -> (∀ a, returnsR (k a)) -> returnsR (bind m k).
Proof. intros [a ->] Hk. apply Hk. Qed.

Lemma returnsR_mapM {A B} (f : A -> result B) l :
  (∀ x, x ∈ l -> returnsR (f x)) -> returnsR (mapM f l).
Proof.
  induction l as [|x l IH]; intros Hf; [apply returnsR_OK|].
  rewrite mapM_cons. apply returnsR_bind; [apply Hf, list_elem_of_here|]. intros y.
  apply returnsR_bind; [|intros ys; apply returnsR_OK].
  apply IH. intros z Hz. by apply Hf, list_elem_of_further.
Qed.

Lemma returnsR_optM {A B} (f : A -> result B) o :
  (∀ x, o = Some x -> returnsR (f x)) -> returnsR (optM f o).
Proof.
  destruct o as [x|]; intros Hf; [|apply returnsR_OK].
  apply returnsR_bind; [by apply Hf|]. intros y. apply returnsR_OK.
Qed.

Lemma returnsR_zipM {A B C} (f : A -> C -> result B) l1 l2 :
  (∀ a d, a ∈ l1 -> d ∈ l2 -> returnsR (f a d)) -> returnsR (zipM f l1 l2).
Proof.
  revert l1. induction l2 as [|d l2 IH]; intros [|a l1] Hf; try apply returnsR_OK.
  rewrite zipM_cons.
  apply returnsR_bind; [apply Hf; apply list_elem_of_here|]. intros y.
  apply returnsR_bind; [|intros ys; apply returnsR_OK].
  apply IH. intros a' d' Ha Hd. by apply Hf; apply list_elem_of_further.
Qed.

Lemma returnsR_with_line {A} (r : result (lined A)) lineno :
  returnsR r -> returnsR (with_line r lineno).
Proof. intros Hr. apply returnsR_bind; [done|]. intros a. apply returnsR_OK. Qed.

Lemma returnsM_ret {A} (a : A) : returnsM (retM a).
Proof. intros st. by exists a, st. Qed.

Lemma returnsM_liftR {A} (r : result A) : returnsR r -> returnsM (liftR r).
Proof. intros [a ->] st. by exists a, st. Qed.

Lemma returnsM_bind {A B} (m : M A) (k : A -> M B) :
  returnsM m -> (∀ a, returnsM (k a)) -> returnsM (bindM m k).
Proof.
  intros Hm Hk st. destruct (Hm st) as (a & st1 & H1).
  destruct (Hk a st1) as (b & st2 & H2). exists b, st2. unfold bindM. by rewrite H1.
Qed.

Lemma returnsM_mapMM {A B} (f : A -> M B) l :
  (∀ x, x ∈ l -> returnsM (f x)) -> returnsM (mapMM f l).
Proof.
  induction l as [|x l IH]; intros Hf; [apply returnsM_ret|].
  rewrite mapMM_cons. apply returnsM_bind; [apply Hf, list_elem_of_here|]. intros y.
  apply returnsM_bind; [|intros ys; apply returnsM_ret].
  apply IH. intros z Hz. by apply Hf, list_elem_of_further.
Qed.

Lemma returnsM_as_block (visit : ast.stmt -> M Node) stmts lineno :
  (∀ x, x ∈ stmts -> returnsM (visit x)) -> returnsM (as_block visit stmts lineno).
Proof.
  intros Hv. destruct stmts as [|s stmts]; [apply returnsM_ret|].
  unfold as_block. apply returnsM_bind; [by apply returnsM_mapMM|].
  intros body. apply returnsM_ret.
Qed.

Lemma returnsM_with_lineM {A} (m : M (lined A)) lineno :
  returnsM m -> returnsM (with_lineM m lineno).
Proof. intros Hm. apply returnsM_bind; [done|]. intros a. apply returnsM_ret. Qed.

Section accepts.
Variables (h : host) (depth : nat).

Lemma make_argument_returns visit line x dflt knd :
  annotation_ok h depth line x -> (∀ d, dflt = Some d -> returnsR (visit d)) ->
  returnsR (make_argument h depth visit line x dflt knd).
Proof.
  destruct x as [name ann ln]. simpl. intros Hann Hd. unfold make_argument.
  apply returnsR_bind.
  { apply returnsR_optM. intros e ->. exact Hann. }
  intros t. apply returnsR_bind; [by apply returnsR_optM|].
  intros i. apply returnsR_OK.
Qed.

Lemma transform_args_returns visit line args :
  arguments_ok h depth line args ->
  (∀ d, d ∈ visited_defaults args -> returnsR (visit d)) ->
  returnsR (transform_args h depth visit args line).
Proof.
  destruct args as [a va kw kwd kwa ds]. intros (Hd & Hkd & Hann) Hdef.
  unfold visited_defaults in Hdef.
  rewrite !bool_decide_eq_true_2 in Hdef by done.
  rewrite !Forall_app in Hann. destruct Hann as (Ha & Hva & Hkw & Hkwa).
  rewrite Forall_forall in Ha, Hkw.
  unfold transform_args.
  apply returnsR_bind.
  { apply returnsR_mapM. intros x Hx. apply make_argument_returns; [|done].
    apply Ha. unfold slice_to in Hx. by apply subseteq_take in Hx. }
  intros pos. apply returnsR_bind.
  { apply returnsR_zipM. intros x d Hx Hdd. apply make_argument_returns.
    - apply Ha. unfold slice_from in Hx. by apply subseteq_drop in Hx.
    - intros d' [= <-]. apply Hdef, elem_of_app. by left. }
  intros opt. apply returnsR_bind.
  { destruct va as [v|]; [|apply returnsR_OK].
    apply returnsR_bind; [|intros y; apply returnsR_OK].
    apply make_argument_returns; [|done]. by inversion Hva. }
  intros star. apply returnsR_bind.
  { apply returnsR_mapM. intros x Hx. apply make_argument_returns; [|done].
    apply Hkw. unfold slice_to in Hx. by apply subseteq_take in Hx. }
  intros named. apply returnsR_bind.
  { apply returnsR_zipM. intros x d Hx Hdd. apply make_argument_returns.
    - apply Hkw. unfold slice_from in Hx. by apply subseteq_drop in Hx.
    - intros d' ->. apply Hdef, elem_of_app. right.
      apply list_elem_of_omap. by exists (Some d'). }
  intros named_opt. apply returnsR_bind.
  { destruct kwa as [v|]; [|apply returnsR_OK].
    apply returnsR_bind; [|intros y; apply returnsR_OK].
    apply make_argument_returns; [|done]. by inversion Hkwa. }
  intros star2. apply returnsR_OK.
Qed.
End accepts.

Set Warnings "-clear-no-such-hyp".

(** One step of a proof that a conversion returns. *)
Ltac returnsR_step :=
  lazymatch goal with
  | |- returnsR (OK _) => apply returnsR_OK
  | |- returnsR (with_line _ _) => apply returnsR_with_line
  | |- returnsR (bind _ _) => apply returnsR_bind; [|intros ?]
  | |- returnsR (mapM _ _) => apply returnsR_mapM; intros ? ?
  | |- returnsR (visit_list _ _) => apply returnsR_mapM; intros ? ?
  | |- returnsR (optM _ _) => apply returnsR_optM; intros ? ?
  | |- returnsR (visit_opt _ _) => apply returnsR_optM; intros ? ?
  | |- returnsR (match ?x with _ => _ end) => destruct x
  end.

Lemma group_returns op vals : (2 <= length vals)%nat -> returnsR (group op vals).
Proof.
  destruct vals as [|v1 [|v2 rest]]; intros Hl; [simpl in Hl; lia..|].
  rewrite group_right_nested. apply returnsR_OK.
Qed.

Lemma from_operator_returns op : op ≠ ast.MatMult -> returnsR (from_operator op).
Proof. intros Hop. destruct op; try done; apply returnsR_OK. Qed.

Lemma from_comp_operator_returns op : returnsR (from_comp_operator op).
Proof. destruct op; apply returnsR_OK. Qed.

Section accepted_expressions.
Variables (h : host) (depth : nat).

(** The three lists of a comprehension. *)
Lemma generators_return (visit : ast.expr -> result Node) (gens : list ast.comprehension)
    {A} (k : list Node -> list Node -> list (list Node) -> result A) :
  (∀ e, e ∈ gens ≫= comprehension_exprs -> returnsR (visit e)) ->
  (∀ targets iters ifs_list, returnsR (k targets iters ifs_list)) ->
  returnsR
    (let* targets := mapM (fun c => match c with ast.Comprehension t _ _ => visit t end)
                          gens in
     let* iters := mapM (fun c => match c with ast.Comprehension _ i _ => visit i end)
                        gens in
     let* ifs_list :=
       mapM (fun c => match c with ast.Comprehension _ _ ifs => visit_list visit ifs end)
            gens in
     k targets iters ifs_list).
Proof.
  intros Hv Hk.
  assert (∀ c e, c ∈ gens -> e ∈ comprehension_exprs c -> returnsR (visit e)) as Hc.
  { intros c e Hin He. apply Hv, list_elem_of_bind. by exists c. }
  apply returnsR_bind.
  { apply returnsR_mapM. intros [t i ifs] Hin. apply (Hc _ _ Hin). simpl. set_solver. }
  intros targets. apply returnsR_bind.
  { apply returnsR_mapM. intros [t i ifs] Hin. apply (Hc _ _ Hin). simpl. set_solver. }
  intros iters. apply returnsR_bind; [|intros ifs_list; apply Hk].
  apply returnsR_mapM. intros [t i ifs] Hin. apply returnsR_mapM. intros e He.
  apply (Hc _ _ Hin). simpl. set_solver.
Qed.

Lemma expr_converts lineno d :
  node_ok h depth (AExpr (ast.At lineno d)) ->
  (∀ c, c ∈ expr_children d -> converts h depth c) ->
  returnsR (visit_expr h depth (ast.At lineno d)).
Proof.
  intros Hok IH.
  assert (∀ e, AExpr e ∈ expr_children d -> returnsR (visit_expr h depth e)) as IHe.
  { intros e He. apply (IH (AExpr e) He). }
  assert (∀ s, ASlice s ∈ expr_children d -> returnsR (visit_slice h depth s)) as IHs.
  { intros s Hs. apply (IH (ASlice s) Hs). }
  clear IH.
  destruct d; cbn [visit_expr]; simpl in Hok; try done;
    try apply returnsR_with_line.
  - (* BoolOp *)
    unfold visit_BoolOp, visit_list.
    destruct (Nat.leb_spec 2 (length values)) as [Hlen|]; [|lia]. simpl negb. cbv iota.
    assert (returnsR (mapM (visit_expr h depth) values)) as [vals Hvals].
    { apply returnsR_mapM. intros e He. apply IHe. simpl. set_solver. }
    rewrite Hvals. simpl. apply group_returns. apply mapM_length in Hvals. lia.
  - (* BinOp *)
    unfold visit_BinOp. apply returnsR_bind; [by apply from_operator_returns|].
    intros name. repeat first [returnsR_step | apply IHe; simpl; set_solver].
  - (* UnaryOp *)
    unfold visit_UnaryOp. destruct op; simpl;
      repeat first [returnsR_step | apply IHe; simpl; set_solver].
  - (* Lambda *)
    unfold visit_Lambda, visit_Return. apply returnsR_bind.
    { apply transform_args_returns; [done|]. intros e He. apply IHe. simpl. set_solver. }
    intros a. repeat first [returnsR_step | apply IHe; subst; simpl; set_solver].
  - (* IfExp *)
    unfold visit_IfExp. repeat first [returnsR_step | apply IHe; simpl; set_solver].
  - (* Dict *)
    unfold visit_Dict. apply returnsR_bind.
    { apply returnsR_mapM. intros o Ho. apply returnsR_optM. intros e ->. apply IHe.
      simpl. apply list_elem_of_fmap_2, elem_of_app. left.
      apply list_elem_of_omap. by exists (Some e). }
    intros ks. repeat first [returnsR_step | apply IHe; simpl; set_solver].
  - (* Set *)
    unfold visit_Set. repeat first [returnsR_step | apply IHe; simpl; set_solver].
  - (* ListComp *)
    unfold visit_ListComp. apply returnsR_bind; [|intros g; apply returnsR_OK].
    apply returnsR_with_line. unfold visit_GeneratorExp. apply generators_return.
    + intros e He. apply IHe. simpl. set_solver.
    + intros. repeat first [returnsR_step | apply IHe; simpl; set_solver].
  - (* SetComp *)
    unfold visit_SetComp. apply returnsR_bind; [|intros g; apply returnsR_OK].
    apply returnsR_with_line. unfold visit_GeneratorExp. apply generators_return.
    + intros e He. apply IHe. simpl. set_solver.
    + intros. repeat first [returnsR_step | apply IHe; simpl; set_solver].
  - (* DictComp *)
    unfold visit_DictComp. apply generators_return.
    + intros e He. apply IHe. simpl. set_solver.
    + intros. repeat first [returnsR_step | apply IHe; simpl; set_solver].
  - (* GeneratorExp *)
    unfold visit_GeneratorExp. apply generators_return.
    + intros e He. apply IHe. simpl. set_solver.
    + intros. repeat first [returnsR_step | apply IHe; simpl; set_solver].
  - (* Yield *)
    unfold visit_Yield. repeat first [returnsR_step | apply IHe; subst; simpl; set_solver].
  - (* YieldFrom *)
    unfold visit_YieldFrom. repeat first [returnsR_step | apply IHe; simpl; set_solver].
  - (* Compare *)
    unfold visit_Compare. apply returnsR_bind.
    { apply returnsR_mapM. intros op _. apply from_comp_operator_returns. }
    intros operators. repeat first [returnsR_step | apply IHe; simpl; set_solver].
  - (* Call *)
    unfold visit_Call. apply returnsR_bind.
    { apply returnsR_mapM. intros a Ha.
      assert (returnsR (visit_expr h depth (unstar a))) as Hr.
      { apply IHe. simpl. apply list_elem_of_fmap_2, elem_of_app. left.
        by apply list_elem_of_fmap_2. }
      by destruct a as [l []]. }
    intros pos. apply returnsR_bind.
    { apply returnsR_mapM. intros [arg v] Hk. apply IHe. simpl.
      apply list_elem_of_fmap_2, elem_of_app. right. apply elem_of_app. left.
      by apply (list_elem_of_fmap_2 keyword_value _ (ast.Keyword arg v)). }
    intros kws. repeat first [returnsR_step | apply IHe; simpl; set_solver].
  - (* Num *)
    unfold visit_Num. destruct n; try done; apply returnsR_OK.
  - (* Str *) apply returnsR_OK.
  - (* Bytes *) apply returnsR_OK.
  - (* NameConstant *) apply returnsR_OK.
  - (* Ellipsis *) apply returnsR_OK.
  - (* Attribute *)
    unfold visit_Attribute.
    assert (is_super_call value = false -> returnsR (visit_expr h depth value)) as Hv.
    { intros Hs. apply IHe. simpl. rewrite Hs. set_solver. }
    destruct value as [lv dv]. destruct dv; try (apply returnsR_bind; [by apply Hv|intros; apply returnsR_OK]).
    destruct func as [lf df]. destruct df; try (apply returnsR_bind; [by apply Hv|intros; apply returnsR_OK]).
    destruct (String.eqb id "super") eqn:Hid; [apply returnsR_OK|].
    apply returnsR_bind; [|intros; apply returnsR_OK]. apply Hv. simpl. exact Hid.
  - (* Subscript *)
    unfold visit_Subscript.
    repeat first [returnsR_step | apply IHe; simpl; set_solver | apply IHs; simpl; set_solver].
  - (* Starred *)
    unfold visit_Starred. repeat first [returnsR_step | apply IHe; simpl; set_solver].
  - (* Name *) apply returnsR_OK.
  - (* List *)
    unfold visit_List. repeat first [returnsR_step | apply IHe; simpl; set_solver].
  - (* Tuple *)
    unfold visit_Tuple. repeat first [returnsR_step | apply IHe; simpl; set_solver].
Qed.

Lemma slice_converts s :
  (∀ c, c ∈ slice_children s -> converts h depth c) ->
  returnsR (visit_slice h depth s).
Proof.
  intros IH.
  assert (∀ e, AExpr e ∈ slice_children s -> returnsR (visit_expr h depth e)) as IHe.
  { intros e He. apply (IH (AExpr e) He). }
  assert (∀ x, ASlice x ∈ slice_children s -> returnsR (visit_slice h depth x)) as IHs.
  { intros x Hx. apply (IH (ASlice x) Hx). }
  clear IH. destruct s; cbn [visit_slice].
  - unfold visit_Slice.
    repeat first [returnsR_step | apply IHe; subst; simpl; set_solver].
  - unfold visit_ExtSlice.
    repeat first [returnsR_step | apply IHs; simpl; set_solver].
  - apply IHe. simpl. set_solver.
Qed.
End accepted_expressions.

Lemma returnsM_bind_OK {A B} (v : A) (k : A -> M B) :
  returnsM (k v) -> returnsM (bindM (liftR (OK v)) k).
Proof. intros H st. exact (H st). Qed.

Lemma returnsM_set_in_class b : returnsM (set_in_class b).
Proof. intros st. by eexists _, _. Qed.

Lemma returnsM_get_in_class : returnsM get_in_class.
Proof. intros st. by eexists _, _. Qed.

Lemma returnsM_imports_append n : returnsM (imports_append n).
Proof. intros st. by eexists _, _. Qed.

(** One step of a proof that a conversion returns, on the converter
    object. *)
Ltac returnsM_step :=
  lazymatch goal with
  | |- returnsM (retM _) => apply returnsM_ret
  | |- returnsM (with_lineM _ _) => apply returnsM_with_lineM
  | |- returnsM (bindM _ _) => apply returnsM_bind; [|intros ?]
  | |- returnsM (imports_append _) => apply returnsM_imports_append
  | |- returnsM (set_in_class _) => apply returnsM_set_in_class
  | |- returnsM get_in_class => apply returnsM_get_in_class
  | |- returnsM (liftR _) => apply returnsM_liftR
  | |- returnsM (visit_e _ _ _) => apply returnsM_liftR
  | |- returnsM (visit_eo _ _ _) => apply returnsM_liftR
  | |- returnsM (visit_el _ _ _) => apply returnsM_liftR
  | |- returnsM (mapMM _ _) => apply returnsM_mapMM; intros ? ?
  | |- returnsM (as_block _ _ _) => apply returnsM_as_block; intros ? ?
  end.

Section accepted_statements.
Variables (h : host) (depth : nat).

Lemma stmt_converts lineno d :
  node_ok h depth (AStmt (ast.SAt lineno d)) ->
  (∀ c, c ∈ stmt_children d -> converts h depth c) ->
  returnsM (visit_stmt h depth (ast.SAt lineno d)).
Proof.
  intros Hok IH.
  assert (∀ e, AExpr e ∈ stmt_children d -> returnsR (visit_expr h depth e)) as IHe.
  { intros e He. apply (IH (AExpr e) He). }
  assert (∀ s, AStmt s ∈ stmt_children d -> returnsM (visit_stmt h depth s)) as IHs.
  { intros s Hs. apply (IH (AStmt s) Hs). }
  clear IH.
  destruct d; cbn [visit_stmt]; simpl in Hok; try done;
    try apply returnsM_with_lineM.
  - (* FunctionDef *)
    destruct Hok as (Hargs & Hbody & Htypes). unfold visit_FunctionDef.
    apply returnsM_bind.
    { apply returnsM_liftR, transform_args_returns; [done|].
      intros e He. apply IHe. simpl. set_solver. }
    intros a. apply returnsM_bind.
    { destruct type_comment as [text|].
      - destruct Htypes as (argtypes & r & -> & Hts & Hr).
        apply returnsM_bind_OK. apply returnsM_bind.
        { apply returnsM_liftR, returnsR_mapM. intros e He.
          rewrite Forall_forall in Hts. by apply Hts. }
        intros ts. repeat first [returnsM_step | done].
      - apply returnsM_bind; [|intros; apply returnsM_ret].
        apply returnsM_liftR, returnsR_optM. intros e ->. exact Htypes. }
    intros [arg_types return_type] st.
    destruct (returnsM_as_block (visit_stmt h depth) body lineno) with (self := st)
      as (blk & st1 & Hblk).
    { intros x Hx. apply IHs. simpl. set_solver. }
    unfold bindM at 1. rewrite Hblk. apply as_block_block_of in Hblk.
    destruct decorator_list as [|d0 ds]; [by eexists _, _|].
    destruct blk as [b|]; [|by destruct Hbody].
    assert (returnsR (visit_list (visit_expr h depth) (d0 :: ds))) as [decorators Hd].
    { apply returnsR_mapM. intros e He. apply IHe. simpl. set_solver. }
    unfold bindM, visit_el, liftR. rewrite Hd. by eexists _, _.
  - (* ClassDef *)
    unfold visit_ClassDef. apply returnsM_bind; [apply returnsM_set_in_class|].
    intros _. apply returnsM_bind.
    { match type of Hok with
      | context [find ?f keywords] => destruct (find f keywords) as [[arg value]|]
      end; [|apply returnsM_ret].
      apply returnsM_bind; [by apply returnsM_liftR|]. intros s. apply returnsM_ret. }
    intros metaclass.
    repeat first
      [ returnsM_step | returnsR_step
      | apply IHs; simpl; set_solver | apply IHe; simpl; set_solver ].
  - (* Return *)
    apply returnsM_liftR. unfold visit_Return.
    repeat first [returnsR_step | apply IHe; subst; simpl; set_solver].
  - (* Delete *)
    unfold visit_Delete. destruct targets as [|t0 ts]; [done|].
    destruct (1 <? length (t0 :: ts))%nat;
      repeat first [returnsM_step | returnsR_step | apply IHe; simpl; set_solver].
  - (* Assign *)
    unfold visit_Assign. apply returnsM_bind.
    { destruct type_comment as [text|]; [|apply returnsM_ret].
      case_bool_decide; [apply returnsM_ret|]. destruct Hok as [?|Hok]; [done|].
      apply returnsM_bind; [by apply returnsM_liftR|]. intros t. apply returnsM_ret. }
    intros typ.
    repeat first [returnsM_step | returnsR_step | apply IHe; simpl; set_solver].
  - (* AugAssign *)
    unfold visit_AugAssign. apply returnsM_bind.
    { by apply returnsM_liftR, from_operator_returns. }
    intros name.
    repeat first [returnsM_step | returnsR_step | apply IHe; simpl; set_solver].
  - (* For *)
    unfold visit_For.
    repeat first
      [ returnsM_step | returnsR_step
      | apply IHs; simpl; set_solver | apply IHe; simpl; set_solver ].
  - (* While *)
    unfold visit_While.
    repeat first
      [ returnsM_step | returnsR_step
      | apply IHs; simpl; set_solver | apply IHe; simpl; set_solver ].
  - (* If *)
    unfold visit_If.
    repeat first
      [ returnsM_step | returnsR_step
      | apply IHs; simpl; set_solver | apply IHe; simpl; set_solver ].
  - (* With *)
    unfold visit_With.
    assert (∀ i e, i ∈ items -> e ∈ withitem_exprs i -> returnsR (visit_expr h depth e))
      as Hitem.
    { intros i e Hi He. apply IHe. simpl. apply elem_of_app. left.
      apply list_elem_of_fmap_2, list_elem_of_bind. by exists i. }
    apply returnsM_bind.
    { apply returnsM_mapMM. intros [c o] Hi. apply returnsM_liftR.
      apply (Hitem _ _ Hi). simpl. set_solver. }
    intros es. apply returnsM_bind.
    { apply returnsM_mapMM. intros [c o] Hi. apply returnsM_liftR, returnsR_optM.
      intros e ->. apply (Hitem _ _ Hi). simpl. set_solver. }
    intros targets.
    repeat first [returnsM_step | apply IHs; simpl; set_solver].
  - (* Raise *)
    unfold visit_Raise.
    repeat first [returnsM_step | returnsR_step | apply IHe; subst; simpl; set_solver].
  - (* Try *)
    unfold visit_Try.
    assert (∀ hd c, hd ∈ handlers -> c ∈ handler_children hd ->
                    c ∈ stmt_children (ast.Try body handlers orelse finalbody)) as Hhd.
    { intros hd c Hin Hc. simpl. apply elem_of_app. left.
      apply list_elem_of_bind. by exists hd. }
    apply returnsM_bind.
    { apply returnsM_mapMM. intros [type name hbody hline] Hin.
      apply returnsM_liftR, returnsR_optM. intros e ->.
      apply IHe, (Hhd _ _ Hin). simpl. set_solver. }
    intros types. apply returnsM_bind.
    { apply returnsM_mapMM. intros [type name hbody hline] Hin.
      apply returnsM_as_block. intros x Hx.
      apply IHs, (Hhd _ _ Hin). simpl. set_solver. }
    intros hs.
    repeat first [returnsM_step | apply IHs; simpl; set_solver].
  - (* Assert *)
    unfold visit_Assert.
    repeat first [returnsM_step | returnsR_step | apply IHe; simpl; set_solver].
  - (* Import *)
    unfold visit_Import. cbv zeta. repeat returnsM_step.
  - (* ImportFrom *)
    unfold visit_ImportFrom. cbv zeta. repeat returnsM_step.
  - (* Global *) apply returnsM_ret.
  - (* Nonlocal *) apply returnsM_ret.
  - (* Expr *)
    unfold visit_Expr.
    repeat first [returnsM_step | returnsR_step | apply IHe; simpl; set_solver].
  - (* Pass *) apply returnsM_ret.
  - (* Break *) apply returnsM_ret.
  - (* Continue *) apply returnsM_ret.
Qed.

(** X26.  The conversion returns on every input in which each node that it
    visits is acceptable by itself: a construct with a conversion (no
    matrix multiplication, no [await], no asynchronous statement, a number
    that is int, float or complex), at least two operands under a boolean
    operator, at least one target under [del], a body under a decorated
    function, no more defaults than parameters, and annotations, type
    comments and a metaclass that convert.  The message of an [assert] and
    whatever else is not visited may be anything. *)
Theorem accepted_input_converts p :
  (∀ u, rtc visits p u -> node_ok h depth u) -> converts h depth p.
Proof.
  induction p as [n IH] using visits_ind. intros Hok.
  assert (∀ c, c ∈ children n -> converts h depth c) as Hc.
  { intros c Hc. apply IH; [done|]. intros u Hu. apply Hok. by eapply rtc_l. }
  specialize (Hok n (rtc_refl _ _)).
  destruct n as [[body tis]|[lineno d]|[lineno d]|s]; simpl in Hc |- *.
  - unfold convert, visit_Module.
    destruct (returnsM_mapMM (visit_stmt h depth) body) with (self := Self false [])
      as (stmts & st & Hs).
    { intros x Hx. apply (Hc (AStmt x)). by apply list_elem_of_fmap_2. }
    unfold bindM. rewrite Hs. simpl. apply returnsR_OK.
  - by apply stmt_converts.
  - by apply expr_converts.
  - by apply slice_converts.
Qed.
End accepted_statements.

Lemma accepted_input_converts_witness :
  ∃ tree, convert demo_host 0 demo_assert_module = OK tree.
Proof.
  apply (accepted_input_converts demo_host 0 (AModule demo_assert_module)).
  intros u Hu.
  apply rtc_inv in Hu as [<-|(c & Hc & Hu)]; [done|].
  unfold visits in Hc. simpl in Hc. apply list_elem_of_singleton in Hc as ->.
  apply rtc_inv in Hu as [<-|(c & Hc & Hu)]; [done|].
  unfold visits in Hc. simpl in Hc. apply list_elem_of_singleton in Hc as ->.
  apply rtc_inv in Hu as [<-|(c & Hc & Hu)]; [done|].
  unfold visits in Hc. simpl in Hc. by apply elem_of_nil in Hc.
Defined.

(** ** Dictionary displays *)

Lemma pyzip_lookup {A B} (a : list A) (b : list B) i x y :
  a !! i = Some x -> b !! i = Some y -> pyzip a b !! i = Some (x, y).
Proof.
  revert b i. induction a as [|x' a IH]; intros [|y' b] [|i]; simpl; try done.
  - by intros [= ->] [= ->].
  - apply IH.
Qed.

(** X27.  A dictionary display converts to a list of pairs, as many as the
    shorter of its key and value lists (the parser gives them one length):
    entry by entry the converted key, or nothing for an entry that unpacks a
    mapping, with the converted value. *)
Theorem visit_Dict_items h depth lineno keys values node :
  visit_expr h depth (ast.At lineno (ast.Dict keys values)) = OK node ->
  ∃ items,
    node = L (Some lineno) (DictExpr items)
    ∧ length items = min (length keys) (length values)
    ∧ ∀ i k v, keys !! i = Some k -> values !! i = Some v ->
        ∃ k' v', items !! i = Some (k', v')
                 ∧ visit_opt (visit_expr h depth) k = OK k'
                 ∧ visit_expr h depth v = OK v'.
Proof.
  intros H.
  change (with_line (visit_Dict (visit_expr h depth) keys values) lineno = OK node) in H.
  unfold with_line, visit_Dict, visit_list in H.
  apply bind_OK_inv in H as (n0 & H & Hn). injection Hn as <-.
  apply bind_OK_inv in H as (ks & Hks & H).
  apply bind_OK_inv in H as (vs & Hvs & H). injection H as <-.
  exists (pyzip ks vs). split; [done|]. split.
  - rewrite pyzip_length. f_equal; by eapply mapM_length.
  - intros i k v Hk Hv.
    destruct (mapM_lookup _ _ _ _ _ Hks Hk) as (k' & Hk' & Hfk).
    destruct (mapM_lookup _ _ _ _ _ Hvs Hv) as (v' & Hv' & Hfv).
    exists k', v'. split; [by apply pyzip_lookup|done].
Qed.

Lemma visit_Dict_items_witness :
  ∃ items,
    visit_expr demo_host 0 demo_dict = OK (L (Some 1) (DictExpr items))
    ∧ length items = 2%nat
    ∧ items !! 1%nat = Some (None, L (Some 1) (NameExpr "c")).
Proof.
  destruct (visit_expr demo_host 0 demo_dict) as [node|x] eqn:Hv; [|by vm_compute in Hv].
  destruct (visit_Dict_items demo_host 0 1 [Some (name_ 1 "a"); None]
              [name_ 1 "b"; name_ 1 "c"] node Hv) as (items & -> & Hlen & Hit).
  exists items. split; [done|]. split; [exact Hlen|].
  destruct (Hit 1%nat None (name_ 1 "c") eq_refl eq_refl) as (k' & v' & Hi & Hk & Hvv).
  vm_compute in Hk, Hvv. injection Hk as <-. injection Hvv as <-. exact Hi.
Defined.
